(** * ReqIF-from-Excel: the document model, the encoder and the text converter

    A shallow embedding of [reqif_app/generate_reqif.py] (class
    [ReqIFGenerator]) and of [build_xhtml_from_text] from
    [reqif_app/excel_to_reqif.py], followed by the properties of the
    specification that concern them.

    Conventions of the embedding.
    - A Python [str] is a [string]; every character stands for one code
      point below 256.  [isspace] and [lower_char] are the restrictions of
      Python's [str.isspace] and [str.lower] to that range.
    - A Python [dict] is a [gmap]; a Python [list] is a [list].
    - An [xml.etree.ElementTree.Element] is a value of [Element]: tag,
      attributes in insertion order, text, children.  [SubElement(parent, ..)]
      appends to the children of [parent]; the embedding builds the same tree
      by appending to lists.
    - A method that raises leaves the object as it was: methods of the
      generator are computations in the monad [M], which returns the state
      together with either a result or the exception.
    - The XML library that [generate] calls ([tostring], [minidom]) is an
      interface, [XmlLibrary]: its calls return bytes or raise, and the one
      fact used of it is that it refuses the characters XML forbids. *)

From Stdlib Require Import Ascii DecimalString DecimalNat DecimalZ.
From stdpp Require Import gmap strings list fin_maps.

Open Scope string_scope.
Open Scope list_scope.
Local Set Warnings "-register-all".

(** ** Python strings *)

Definition LF : ascii := "010"%char.
Definition CR : ascii := "013"%char.

(** [str.isspace] for one character, on code points below 256:
    TAB, LF, VT, FF, CR, FS, GS, RS, US, SPACE, NEL, NBSP. *)
Definition isspace (c : ascii) : bool :=
  let n := N_of_ascii c in
  ((9 <=? n) && (n <=? 13) || (28 <=? n) && (n <=? 32)
   || (n =? 133) || (n =? 160))%N.

(** [str.lower] for one character, on code points below 256: [A-Z] and the
    Latin-1 capitals (all of 192..222 but the multiplication sign 215) move
    up by 32.  Beyond that range Python has upper-case code points that
    [str.lower] leaves as they are, so the properties below speak of what
    [lower] changes and of its fixed points, never of letter case. *)
Definition lower_char (c : ascii) : ascii :=
  let n := N_of_ascii c in
  if ((65 <=? n) && (n <=? 90)
      || (192 <=? n) && (n <=? 222) && negb (n =? 215))%N
  then ascii_of_N (n + 32) else c.

(** [s.lower()] *)
Fixpoint lower (s : string) : string :=
  match s with
  | "" => ""
  | String c s' => String (lower_char c) (lower s')
  end.

(** [s.rstrip()] *)
Fixpoint rstrip (s : string) : string :=
  match s with
  | "" => ""
  | String c s' =>
      match rstrip s' with
      | "" => if isspace c then "" else String c ""
      | r => String c r
      end
  end.

(** [s.lstrip()] *)
Fixpoint lstrip (s : string) : string :=
  match s with
  | "" => ""
  | String c s' => if isspace c then lstrip s' else s
  end.

(** [s.strip()] *)
Definition strip (s : string) : string := lstrip (rstrip s).

(** [s.startswith(p)] *)
Definition startswith (p s : string) : bool := String.prefix p s.

(** [s[n:]] *)
Fixpoint slice_from (n : nat) (s : string) : string :=
  match n, s with
  | O, _ => s
  | S n', String _ s' => slice_from n' s'
  | S _, "" => ""
  end.

(** [s.replace('\r\n', '\n')]: a CR directly before an LF is dropped. *)
Fixpoint replace_crlf (s : string) : string :=
  match s with
  | "" => ""
  | String c s' =>
      if Ascii.eqb c CR then
        match s' with
        | String c' _ =>
            if Ascii.eqb c' LF then replace_crlf s'
            else String c (replace_crlf s')
        | "" => String c ""
        end
      else String c (replace_crlf s')
  end.

(** [s.replace('\r', '\n')] *)
Fixpoint replace_cr (s : string) : string :=
  match s with
  | "" => ""
  | String c s' =>
      String (if Ascii.eqb c CR then LF else c) (replace_cr s')
  end.

(** [s.split('\n')] *)
Fixpoint split_lf (s : string) : list string :=
  match s with
  | "" => [""]
  | String c s' =>
      if Ascii.eqb c LF then "" :: split_lf s'
      else match split_lf s' with
           | h :: t => String c h :: t
           | [] => [String c ""]
           end
  end.

(** ['\n'.join(l)] *)
Definition join_lf (l : list string) : string :=
  String.concat (String LF "") l.

(** [str(n)] for a non-negative [int], and for any [int]. *)
Definition str_nat (n : nat) : string :=
  NilEmpty.string_of_uint (Nat.to_uint n).

Definition str_int (z : Z) : string :=
  NilEmpty.string_of_int (Z.to_int z).

(** [s.zfill(width)]: zeros go after a leading sign. *)
Fixpoint zeros (n : nat) : string :=
  match n with
  | O => ""
  | S n' => String "0" (zeros n')
  end.

Definition zfill (width : nat) (s : string) : string :=
  let fill := width - String.length s in
  match s with
  | String c s' =>
      if Ascii.eqb c "+" || Ascii.eqb c "-"
      then String c (zeros fill +:+ s')
      else zeros fill +:+ s
  | "" => zeros fill
  end.

(** ** ElementTree elements *)

Inductive Element : Type :=
  Elem (tag : string) (attrib : list (string * string))
       (text : option string) (children : list Element).

Definition tag (e : Element) : string :=
  match e with Elem t _ _ _ => t end.
Definition attrib (e : Element) : list (string * string) :=
  match e with Elem _ a _ _ => a end.
Definition text (e : Element) : option string :=
  match e with Elem _ _ x _ => x end.
Definition children (e : Element) : list Element :=
  match e with Elem _ _ _ c => c end.

(** [SubElement(e, ..)] seen from [e]: one more child at the end. *)
Definition append_child (e child : Element) : Element :=
  match e with Elem t a x c => Elem t a x (c ++ [child]) end.

(** ** excel_to_reqif.py: [build_xhtml_from_text] *)

Definition ns : string := "{http://www.w3.org/1999/xhtml}".

Definition xhtml_p (content : string) : Element :=
  Elem (ns +:+ "p") [] (Some content) [].
Definition xhtml_ul : Element := Elem (ns +:+ "ul") [] None [].
Definition xhtml_li (content : string) : Element :=
  Elem (ns +:+ "li") [] (Some content) [].
Definition xhtml_div (kids : list Element) : Element :=
  Elem (ns +:+ "div") [] None kids.

(** The local variables of the loop.  [div] holds the children appended to
    the result so far.  [ul_elem] is a reference to an element that is a
    child of [div]: it is kept as the position of that child, so that adding
    an item through [ul_elem] changes the child inside [div]. *)
Record conv_state : Type := ConvState {
  div : list Element;
  buffer : list string;
  list_mode : bool;
  ul_elem : option nat
}.

Definition nonempty {A} (l : list A) : bool :=
  match l with [] => false | _ => true end.

Definition truthy (s : string) : bool :=
  match s with "" => false | _ => true end.

(** The nested function [flush_paragraph(buf)], on the children of [div]. *)
Definition flush_paragraph (d : list Element) (buf : list string)
  : list Element :=
  let content := strip (join_lf buf) in
  if truthy content then d ++ [xhtml_p content] else d.

(** One iteration of [for raw in lines].  [None] stands for the [TypeError]
    of [SubElement(None, ..)]. *)
Definition conv_step (st : conv_state) (raw : string) : option conv_state :=
  let line := rstrip raw in
  if negb (truthy line) then
    if list_mode st then
      Some (ConvState (div st) (buffer st) false None)
    else if nonempty (buffer st) then
      Some (ConvState (flush_paragraph (div st) (buffer st)) []
                      (list_mode st) (ul_elem st))
    else Some st
  else if startswith "- " line then
    let st1 :=
      if negb (list_mode st) then
        let st0 :=
          if nonempty (buffer st) then
            ConvState (flush_paragraph (div st) (buffer st)) []
                      (list_mode st) (ul_elem st)
          else st in
        ConvState (div st0 ++ [xhtml_ul]) (buffer st0) true
                  (Some (length (div st0)))
      else st in
    match ul_elem st1 with
    | Some i =>
        match div st1 !! i with
        | Some u =>
            let li := xhtml_li (strip (slice_from 2 line)) in
            Some (ConvState (<[i := append_child u li]> (div st1))
                            (buffer st1) (list_mode st1) (ul_elem st1))
        | None => None
        end
    | None => None
    end
  else
    let st1 :=
      if list_mode st then ConvState (div st) (buffer st) false None
      else st in
    Some (ConvState (div st1) (buffer st1 ++ [line])
                    (list_mode st1) (ul_elem st1)).

Fixpoint conv_loop (st : conv_state) (lines : list string)
  : option conv_state :=
  match lines with
  | [] => Some st
  | raw :: rest =>
      match conv_step st raw with
      | Some st' => conv_loop st' rest
      | None => None
      end
  end.

Definition conv_init : conv_state := ConvState [] [] false None.

(** [text.replace('\r\n', '\n').replace('\r', '\n').split('\n')] *)
Definition text_lines (text : string) : list string :=
  split_lf (replace_cr (replace_crlf text)).

Definition build_xhtml_from_text (text : string) : option Element :=
  if negb (truthy text) then Some (xhtml_div [xhtml_p ""])
  else
    match conv_loop conv_init (text_lines text) with
    | Some st =>
        let d := if nonempty (buffer st)
                 then flush_paragraph (div st) (buffer st) else div st in
        Some (xhtml_div d)
    | None => None
    end.

(** Views of a fragment: its block nodes. *)
Definition is_paragraph (e : Element) : bool := String.eqb (tag e) (ns +:+ "p").
Definition is_bullet_list (e : Element) : bool := String.eqb (tag e) (ns +:+ "ul").

Definition has_bullet_list (e : Element) : bool :=
  existsb is_bullet_list (children e).

Definition item_texts (ul : Element) : list (option string) :=
  map text (children ul).

(** The bullet lists of a fragment, each as the texts of its items. *)
Definition bullet_lists (kids : list Element) : list (list (option string)) :=
  map item_texts (filter (fun e => is_bullet_list e = true) kids).

(** ** generate_reqif.py: [ReqIFGenerator] *)

(** The dictionaries appended to [spec_objects] and [spec_relations]; their
    keys are fixed, so each is a record.  [text_content] is an [Element] or
    a [str]. *)
Record Requirement : Type := MkRequirement {
  req_identifier : string;
  req_type_ref : string;
  req_foreign_id : Z;
  req_name : string;
  req_chapter : string;
  req_description : string;
  req_text_content : Element + string;
  req_status : string;
  req_priority : string;
  req_req_prefix : string;
  req_attr_prefix : string;
  req_ie_puid : string
}.

Record Relation : Type := MkRelation {
  rel_identifier : string;
  rel_type_ref : string;
  rel_source : string;
  rel_target : string
}.

(** The attributes of a generator that differ between instances or change
    over its life.  The remaining attributes ([dt_string] .. [dt_priority],
    [status_values], [priority_values]) are assigned the same constants by
    every [__init__] and are only read afterwards; they are the definitions
    below. *)
Record ReqIFGenerator : Type := MkGenerator {
  title : string;
  timestamp : string;
  spec_objects : list Requirement;
  spec_relations : list Relation
}.

Definition NAMESPACES_default : string :=
  "http://www.omg.org/spec/ReqIF/20110401/reqif.xsd".

Definition dt_string : string := "DT-STRING".
Definition dt_xhtml : string := "DT-XHTML".
Definition dt_integer : string := "DT-INTEGER".
Definition dt_status : string := "DT-STATUS".
Definition dt_priority : string := "DT-PRIORITY".

Definition status_values : gmap string string :=
  <["draft" := "EV-STATUS-DRAFT"]>
  (<["wip" := "EV-STATUS-WIP"]>
  (<["reviewed" := "EV-STATUS-REVIEWED"]>
  (<["approved" := "EV-STATUS-APPROVED"]> ∅))).

Definition priority_values : gmap string string :=
  <["high" := "EV-PRIO-HIGH"]>
  (<["medium" := "EV-PRIO-MEDIUM"]>
  (<["low" := "EV-PRIO-LOW"]> ∅)).

(** [__init__(title)]; [now] is [datetime.now().strftime(..)], the one read
    of the host clock. *)
Definition init (title now : string) : ReqIFGenerator :=
  MkGenerator title now [] [].

(** Exceptions, and methods as state transformers that may raise.
    [ExpatError] is [xml.parsers.expat.ExpatError], which [generate] lets
    through from [minidom.parseString]. *)
Inductive exn : Type :=
  | ValueError (msg : string)
  | KeyError (key : string)
  | ExpatError (msg : string).

Definition M (A : Type) : Type :=
  ReqIFGenerator -> (exn + A) * ReqIFGenerator.

Definition ret {A} (a : A) : M A := fun g => (inr a, g).
Definition raise {A} (e : exn) : M A := fun g => (inl e, g).
Definition bind {A B} (m : M A) (k : A -> M B) : M B :=
  fun g => match m g with
           | (inr a, g') => k a g'
           | (inl e, g') => (inl e, g')
           end.
Definition get_self : M ReqIFGenerator := fun g => (inr g, g).
Definition put_self (g : ReqIFGenerator) : M unit := fun _ => (inr tt, g).

#[global] Instance M_ret : MRet M := @ret.
#[global] Instance M_bind : MBind M := fun A B k m => bind m k.

(** [d[key]] *)
Definition getitem (d : gmap string string) (key : string) : M string :=
  match d !! key with
  | Some v => ret v
  | None => raise (KeyError key)
  end.

(** [d.get(key, dflt)] *)
Definition dict_get (d : gmap string string) (key dflt : string) : string :=
  default dflt (d !! key).

(** The arguments of [add_requirement].  For [status], [priority] and
    [req_prefix], [None] is an argument left out of the call, so that the
    default of the signature applies; for [identifier] and [ie_puid] it is
    Python's [None], which is also their default. *)
Record req_args : Type := MkReqArgs {
  a_req_type : string;
  a_foreign_id : Z;
  a_name : string;
  a_chapter : string;
  a_description : string;
  a_text_content : Element + string;
  a_status : option string;
  a_priority : option string;
  a_req_prefix : option string;
  a_identifier : option string;
  a_ie_puid : option string
}.

Definition type_map : gmap string (string * string * string) :=
  <["functional" := ("T-REQ-FUNCTIONAL", "F", "F")]>
  (<["interface" := ("T-REQ-INTERFACE", "I", "I")]>
  (<["performance" := ("T-REQ-PERFORMANCE", "P", "P")]> ∅)).

Definition add_requirement (a : req_args) : M string :=
  let status := default "approved" (a_status a) in
  let priority := default "high" (a_priority a) in
  let req_prefix := default "SYS" (a_req_prefix a) in
  match type_map !! a_req_type a with
  | None => raise (ValueError ("Invalid req_type: " +:+ a_req_type a))
  | Some (type_ref, prefix_short, attr_prefix) =>
      self ← get_self;
      let identifier :=
        match a_identifier a with
        | None =>
            "SO-" +:+ prefix_short +:+ "-"
            +:+ zfill 3 (str_nat (length (spec_objects self) + 1))
        | Some i => i
        end in
      let ie_puid :=
        match a_ie_puid a with
        | None => "REQ-" +:+ zfill 3 (str_nat (length (spec_objects self) + 1))
        | Some p => p
        end in
      dflt_status ← getitem status_values "approved";
      dflt_priority ← getitem priority_values "medium";
      let req :=
        MkRequirement identifier type_ref (a_foreign_id a) (a_name a)
          (a_chapter a) (a_description a) (a_text_content a)
          (dict_get status_values (lower status) dflt_status)
          (dict_get priority_values (lower priority) dflt_priority)
          req_prefix attr_prefix ie_puid in
      put_self (MkGenerator (title self) (timestamp self)
                  (spec_objects self ++ [req]) (spec_relations self));;
      ret identifier
  end.

Definition rel_type_map : gmap string string :=
  <["satisfy" := "T-REL-SATISFY"]>
  (<["derive" := "T-REL-DERIVE"]>
  (<["refine" := "T-REL-REFINE"]> ∅)).

Definition add_relation (relation_type source_id target_id : string)
    (identifier : option string) : M unit :=
  match rel_type_map !! relation_type with
  | None => raise (ValueError ("Invalid relation_type: " +:+ relation_type))
  | Some type_ref =>
      self ← get_self;
      let identifier :=
        match identifier with
        | None => "SR-" +:+ zfill 3 (str_nat (length (spec_relations self) + 1))
        | Some i => i
        end in
      let rel := MkRelation identifier type_ref source_id target_id in
      put_self (MkGenerator (title self) (timestamp self)
                  (spec_objects self) (spec_relations self ++ [rel]))
  end.

(** *** The encoder

    [node tag attrib extra text kids] is the element made by
    [SubElement(parent, tag, attrib=attrib, **extra)] once its text has been
    set and its children appended: ElementTree stores the entries of [attrib]
    before the keyword arguments. *)
Definition node (tag : string) (attrib extra : list (string * string))
    (text : option string) (kids : list Element) : Element :=
  Elem tag (attrib ++ extra) text kids.

Definition leaf (tag : string) (text : string) : Element :=
  node tag [] [] (Some text) [].

(** [_create_header]: the child appended to [root]. *)
Definition _create_header (self : ReqIFGenerator) : Element :=
  node "THE-HEADER" [] [] None
    [node "REQ-IF-HEADER" [] [("IDENTIFIER", "HDR-001")] None
       [leaf "CREATION-TIME" (timestamp self);
        leaf "REQ-IF-TOOL-ID" "ReqIF_Generator";
        leaf "REQ-IF-VERSION" "1.0";
        leaf "SOURCE-TOOL-ID" "ReqIF_Generator";
        leaf "TITLE" (title self)]].

Definition enum_value (d : string * string * string) : Element :=
  let '(identifier, long_name, key) := d in
  node "ENUM-VALUE" [("LONG-NAME", long_name)] [("IDENTIFIER", identifier)] None
    [node "PROPERTIES" [] [] None
       [node "EMBEDDED-VALUE" [("OTHER-CONTENT", long_name)] [("KEY", key)]
          None []]].

Definition status_defs : list (string * string * string) :=
  [("EV-STATUS-DRAFT", "Draft", "0");
   ("EV-STATUS-WIP", "Work-in-progress", "1");
   ("EV-STATUS-REVIEWED", "Reviewed", "2");
   ("EV-STATUS-APPROVED", "Approved", "3")].

Definition priority_defs : list (string * string * string) :=
  [("EV-PRIO-HIGH", "High", "0");
   ("EV-PRIO-MEDIUM", "Medium", "1");
   ("EV-PRIO-LOW", "Low", "2")].

(** [_create_datatypes]: the children appended to [datatypes_elem]. *)
Definition _create_datatypes : list Element :=
  [node "DATATYPE-DEFINITION-STRING" [("LONG-NAME", "String")]
     [("IDENTIFIER", dt_string)] None [];
   node "DATATYPE-DEFINITION-XHTML" [("LONG-NAME", "XHTMLString")]
     [("IDENTIFIER", dt_xhtml)] None [];
   node "DATATYPE-DEFINITION-INTEGER" [("LONG-NAME", "Integer")]
     [("IDENTIFIER", dt_integer)] None [];
   node "DATATYPE-DEFINITION-ENUMERATION" [("LONG-NAME", "Status")]
     [("IDENTIFIER", dt_status)] None
     [node "SPECIFIED-VALUES" [] [] None (map enum_value status_defs)];
   node "DATATYPE-DEFINITION-ENUMERATION" [("LONG-NAME", "Priority")]
     [("IDENTIFIER", dt_priority)] None
     [node "SPECIFIED-VALUES" [] [] None (map enum_value priority_defs)]].

(** One attribute definition of a type: the element, then its [TYPE] child
    holding the reference to the data type. *)
Definition attribute_definition (kind : string)
    (attrib : list (string * string)) (identifier : string)
    (dt : string) : Element :=
  node ("ATTRIBUTE-DEFINITION-" +:+ kind) attrib [("IDENTIFIER", identifier)]
    None
    [node "TYPE" [] [] None
       [leaf ("DATATYPE-DEFINITION-" +:+ kind +:+ "-REF") dt]].

(** [_create_spec_object_type]: the child appended to [spec_types_elem]. *)
Definition _create_spec_object_type (type_id long_name prefix : string)
  : Element :=
  node "SPEC-OBJECT-TYPE" [("LONG-NAME", long_name)] [("IDENTIFIER", type_id)]
    None
    [node "SPEC-ATTRIBUTES" [] [] None
       [attribute_definition "INTEGER" [("LONG-NAME", "ReqIF.ForeignID")]
          (prefix +:+ "-AD-FOREIGNID") dt_integer;
        attribute_definition "STRING" [("LONG-NAME", "ReqIF.Name")]
          (prefix +:+ "-AD-NAME") dt_string;
        attribute_definition "STRING" [("LONG-NAME", "IE PUID")]
          (prefix +:+ "-AD-IEPUID") dt_string;
        attribute_definition "STRING" [("LONG-NAME", "ReqIF.ChapterName")]
          (prefix +:+ "-AD-CHAP") dt_string;
        attribute_definition "XHTML" [("LONG-NAME", "ReqIF.Description")]
          (prefix +:+ "-AD-DESC") dt_xhtml;
        attribute_definition "STRING" [("LONG-NAME", "ReqIF.Prefix")]
          (prefix +:+ "-AD-PREFIX") dt_string;
        attribute_definition "XHTML" [("LONG-NAME", "ReqIF.Text")]
          (prefix +:+ "-AD-TEXT") dt_xhtml;
        attribute_definition "ENUMERATION"
          [("LONG-NAME", "Status"); ("MULTI-VALUED", "false")]
          (prefix +:+ "-AD-STATUS") dt_status;
        attribute_definition "ENUMERATION"
          [("LONG-NAME", "Priority"); ("MULTI-VALUED", "false")]
          (prefix +:+ "-AD-PRIORITY") dt_priority]].

(** [_create_spec_types]: the children appended to [spec_types_elem]. *)
Definition _create_spec_types : list Element :=
  [node "SPECIFICATION-TYPE" [("LONG-NAME", "Stakeholder Requirements")]
     [("IDENTIFIER", "T-MODULE")] None
     [node "SPEC-ATTRIBUTES" [] [] None
        [attribute_definition "STRING" [("LONG-NAME", "ID")]
           "AD-MOD-ID" dt_string;
         attribute_definition "XHTML" [("LONG-NAME", "Description")]
           "AD-MOD-DESC" dt_xhtml]];
   _create_spec_object_type "T-REQ-FUNCTIONAL" "functional" "F";
   _create_spec_object_type "T-REQ-INTERFACE" "interface" "I";
   _create_spec_object_type "T-REQ-PERFORMANCE" "performance" "P";
   node "SPEC-RELATION-TYPE" [("LONG-NAME", "satisfy")]
     [("IDENTIFIER", "T-REL-SATISFY")] None [];
   node "SPEC-RELATION-TYPE" [("LONG-NAME", "derive")]
     [("IDENTIFIER", "T-REL-DERIVE")] None [];
   node "SPEC-RELATION-TYPE" [("LONG-NAME", "refine")]
     [("IDENTIFIER", "T-REL-REFINE")] None []].

(** [_create_xhtml_element(text_content)]: every call in the class passes a
    [str] and leaves [is_formatted] at its default [False]. *)
Definition _create_xhtml_element (text_content : string) : Element :=
  Elem (ns +:+ "div") [] None [Elem (ns +:+ "p") [] (Some text_content) []].

(** An [ATTRIBUTE-VALUE-..] element whose value is the attribute
    [THE-VALUE]. *)
Definition simple_value (kind value definition : string) : Element :=
  node ("ATTRIBUTE-VALUE-" +:+ kind) [("THE-VALUE", value)] [] None
    [node "DEFINITION" [] [] None
       [leaf ("ATTRIBUTE-DEFINITION-" +:+ kind +:+ "-REF") definition]].

(** An [ATTRIBUTE-VALUE-XHTML] element: definition, then [THE-VALUE]. *)
Definition xhtml_value (definition : string) (content : Element) : Element :=
  node "ATTRIBUTE-VALUE-XHTML" [] [] None
    [node "DEFINITION" [] [] None
       [leaf "ATTRIBUTE-DEFINITION-XHTML-REF" definition];
     node "THE-VALUE" [] [] None [content]].

(** An [ATTRIBUTE-VALUE-ENUMERATION] element: definition, then [VALUES]. *)
Definition enum_ref_value (definition value : string) : Element :=
  node "ATTRIBUTE-VALUE-ENUMERATION" [] [] None
    [node "DEFINITION" [] [] None
       [leaf "ATTRIBUTE-DEFINITION-ENUMERATION-REF" definition];
     node "VALUES" [] [] None [leaf "ENUM-VALUE-REF" value]].

(** The body of the loop of [_create_spec_objects]. *)
Definition spec_object (self : ReqIFGenerator) (req : Requirement) : Element :=
  let p := req_attr_prefix req in
  node "SPEC-OBJECT" [("LAST-CHANGE", timestamp self)]
    [("IDENTIFIER", req_identifier req)] None
    [node "TYPE" [] [] None [leaf "SPEC-OBJECT-TYPE-REF" (req_type_ref req)];
     node "VALUES" [] [] None
       [simple_value "INTEGER" (str_int (req_foreign_id req))
          (p +:+ "-AD-FOREIGNID");
        simple_value "STRING" (req_name req) (p +:+ "-AD-NAME");
        simple_value "STRING" (req_chapter req) (p +:+ "-AD-CHAP");
        simple_value "STRING" (req_ie_puid req) (p +:+ "-AD-IEPUID");
        xhtml_value (p +:+ "-AD-DESC")
          (_create_xhtml_element (req_description req));
        simple_value "STRING" (req_req_prefix req) (p +:+ "-AD-PREFIX");
        xhtml_value (p +:+ "-AD-TEXT")
          match req_text_content req with
          | inl e => e
          | inr s => _create_xhtml_element s
          end;
        enum_ref_value (p +:+ "-AD-STATUS") (req_status req);
        enum_ref_value (p +:+ "-AD-PRIORITY") (req_priority req)]].

(** [_create_spec_objects]: the children appended to [spec_objects_elem]. *)
Definition _create_spec_objects (self : ReqIFGenerator) : list Element :=
  map (spec_object self) (spec_objects self).

(** The body of the loop of [_create_spec_relations]. *)
Definition spec_relation (self : ReqIFGenerator) (rel : Relation) : Element :=
  node "SPEC-RELATION" [("LAST-CHANGE", timestamp self)]
    [("IDENTIFIER", rel_identifier rel)] None
    [node "TYPE" [] [] None [leaf "SPEC-RELATION-TYPE-REF" (rel_type_ref rel)];
     node "SOURCE" [] [] None [leaf "SPEC-OBJECT-REF" (rel_source rel)];
     node "TARGET" [] [] None [leaf "SPEC-OBJECT-REF" (rel_target rel)]].

(** [_create_spec_relations]: the children appended to
    [spec_relations_elem]. *)
Definition _create_spec_relations (self : ReqIFGenerator) : list Element :=
  map (spec_relation self) (spec_relations self).

(** [enumerate(l, start)] *)
Fixpoint enumerate {A} (start : nat) (l : list A) : list (nat * A) :=
  match l with
  | [] => []
  | x :: l' => (start, x) :: enumerate (S start) l'
  end.

Definition spec_hierarchy (self : ReqIFGenerator) (ir : nat * Requirement)
  : Element :=
  node "SPEC-HIERARCHY" [("LAST-CHANGE", timestamp self)]
    [("IDENTIFIER", "SH-" +:+ zfill 3 (str_nat (fst ir)))] None
    [node "OBJECT" [] [] None
       [leaf "SPEC-OBJECT-REF" (req_identifier (snd ir))]].

(** [_create_specifications]: the child appended to [specifications_elem]. *)
Definition _create_specifications (self : ReqIFGenerator) : Element :=
  node "SPECIFICATION"
    [("LONG-NAME", title self); ("LAST-CHANGE", timestamp self)]
    [("IDENTIFIER", "SP-001")] None
    [node "TYPE" [] [] None [leaf "SPECIFICATION-TYPE-REF" "T-MODULE"];
     node "VALUES" [] [] None
       [simple_value "STRING" "SRS-001" "AD-MOD-ID";
        xhtml_value "AD-MOD-DESC"
          (_create_xhtml_element
             ("This module contains system-level requirements for "
              +:+ title self +:+ "."))];
     node "CHILDREN" [] [] None
       (map (spec_hierarchy self) (enumerate 1 (spec_objects self)))].

(** The tree that [generate] builds and hands to [tostring]. *)
Definition generate_root (self : ReqIFGenerator) : Element :=
  Elem "REQ-IF" [("xmlns", NAMESPACES_default)] None
    [_create_header self;
     node "CORE-CONTENT" [] [] None
       [node "REQ-IF-CONTENT" [] [] None
          [node "DATATYPES" [] [] None _create_datatypes;
           node "SPEC-TYPES" [] [] None _create_spec_types;
           node "SPEC-OBJECTS" [] [] None (_create_spec_objects self);
           node "SPEC-RELATIONS" [] [] None (_create_spec_relations self);
           node "SPECIFICATIONS" [] [] None [_create_specifications self]]];
     node "TOOL-EXTENSIONS" [] [] None []].

(** *** The XML library

    [generate] ends with
    [minidom.parseString(tostring(root, encoding='utf-8')).toprettyxml(..)]
    and writes the bytes it gets.  The three calls are library code: the
    embedding takes them as an interface, each call giving its result or
    the exception it raises. *)
Definition bytes : Type := list Byte.byte.

Record XmlLibrary : Type := MkXmlLibrary {
  Document : Type;
  tostring : Element -> exn + bytes;
  parseString : bytes -> exn + Document;
  toprettyxml : Document -> exn + bytes
}.

(** The characters that XML 1.0 allows, among the code points below 256:
    TAB, LF, CR and everything from SPACE on. *)
Definition xml_char (c : ascii) : bool :=
  let n := N_of_ascii c in
  ((n =? 9) || (n =? 10) || (n =? 13) || (32 <=? n))%N.

Fixpoint xml_string (s : string) : bool :=
  match s with
  | "" => true
  | String c s' => xml_char c && xml_string s'
  end.

(** Whether a text or an attribute value somewhere in a tree holds a
    character that XML forbids. *)
Fixpoint has_forbidden_char (e : Element) : bool :=
  match e with
  | Elem _ a x kids =>
      existsb (fun kv => negb (xml_string (snd kv))) a
      || negb (xml_string (default "" x))
      || existsb has_forbidden_char kids
  end.

(** What the properties below use of the library.  [tostring] writes texts
    and attribute values without looking for such characters, and expat
    accepts no document that holds one: whatever [tostring] returns for a
    tree with a forbidden character, [parseString] refuses with an
    [ExpatError]. *)
Definition rejects_forbidden (lib : XmlLibrary) : Prop :=
  forall e bs,
    has_forbidden_char e = true -> tostring lib e = inr bs ->
    exists msg, parseString lib bs = inl (ExpatError msg).

(** [minidom.parseString(tostring(root, ..)).toprettyxml(..)]: the first
    exception raised, else the bytes. *)
Definition serialize (lib : XmlLibrary) (root : Element) : exn + bytes :=
  match tostring lib root with
  | inl e => inl e
  | inr xml =>
      match parseString lib xml with
      | inl e => inl e
      | inr dom => toprettyxml lib dom
      end
  end.

(** An exception of the library is an exception of the method. *)
Definition lift {A} (r : exn + A) : M A := fun g => (r, g).

(** [generate(output_file)]: reads the generator and changes nothing in it.
    The result is what the method hands to the file system, the name of the
    file and the bytes to write; [open] and [write] themselves act on the
    host and are not part of the embedding.  [register_namespace] only
    tells [tostring] which prefix to print. *)
Definition generate (lib : XmlLibrary) (output_file : string)
  : M (string * bytes) :=
  self ← get_self;
  xml_str ← lift (serialize lib (generate_root self));
  mret (output_file, xml_str).

(** An instance of the interface for the examples.  [tostring] writes the
    characters of the attribute values and texts of a tree in document
    order, one byte for each, and nothing else; [parseString] refuses the
    bytes of forbidden characters. *)
Fixpoint plain_chars (e : Element) : list ascii :=
  match e with
  | Elem _ a x kids =>
      flat_map (fun kv => String.list_ascii_of_string (snd kv)) a
      ++ String.list_ascii_of_string (default "" x)
      ++ flat_map plain_chars kids
  end.

Definition plain_library : XmlLibrary :=
  MkXmlLibrary bytes
    (fun e => inr (map byte_of_ascii (plain_chars e)))
    (fun bs =>
       if forallb (fun b => xml_char (ascii_of_byte b)) bs then inr bs
       else inl (ExpatError "not well-formed (invalid token)"))
    (fun dom => inr dom).

(** ** Vocabulary of the properties *)

(** *** Reading an element tree *)

(** [e.find(t)]: the first child with tag [t]. *)
Definition find (t : string) (e : Element) : option Element :=
  List.find (fun c => String.eqb (tag c) t) (children e).

(** [e.get(k)] *)
Fixpoint assoc (k : string) (l : list (string * string)) : option string :=
  match l with
  | [] => None
  | (k', v) :: l' => if String.eqb k' k then Some v else assoc k l'
  end.

(** The attribute definition an attribute value refers to: the text of the
    only child of its [DEFINITION]. *)
Definition definition_ref (av : Element) : option string :=
  d ← find "DEFINITION" av; r ← head (children d); text r.

(** What an attribute value carries: the attribute [THE-VALUE], else the
    element inside the child [THE-VALUE], else the enumeration value
    referred to under [VALUES]. *)
Definition carried_value (av : Element) : option (string + Element) :=
  match assoc "THE-VALUE" (attrib av) with
  | Some v => Some (inl v)
  | None =>
      match find "THE-VALUE" av with
      | Some tv => inr <$> head (children tv)
      | None => v ← find "VALUES" av; r ← find "ENUM-VALUE-REF" v;
                inl <$> text r
      end
  end.

(** The attribute values of an object block, in document order. *)
Definition object_values (so : Element) : list Element :=
  match find "VALUES" so with
  | Some v => children v
  | None => []
  end.

(** The identifiers of the attribute definitions that the catalog declares
    for an object type, in the order of declaration. *)
Definition catalog_attribute_ids (prefix : string) : list (option string) :=
  match find "SPEC-ATTRIBUTES" (_create_spec_object_type "" "" prefix) with
  | Some sa => map (fun ad => assoc "IDENTIFIER" (attrib ad)) (children sa)
  | None => []
  end.

(** The order in which an object block lists its values. *)
Definition value_suffixes : list string :=
  ["-AD-FOREIGNID"; "-AD-NAME"; "-AD-CHAP"; "-AD-IEPUID"; "-AD-DESC";
   "-AD-PREFIX"; "-AD-TEXT"; "-AD-STATUS"; "-AD-PRIORITY"].

(** The nine values of a stored requirement, in that order. *)
Definition stored_values (req : Requirement) : list (string + Element) :=
  [inl (str_int (req_foreign_id req));
   inl (req_name req);
   inl (req_chapter req);
   inl (req_ie_puid req);
   inr (_create_xhtml_element (req_description req));
   inl (req_req_prefix req);
   inr match req_text_content req with
       | inl e => e
       | inr s => _create_xhtml_element s
       end;
   inl (req_status req);
   inl (req_priority req)].

(** The sections of an encoded document. *)
Definition content_section (t : string) (root : Element) : list Element :=
  default [] (c ← find "CORE-CONTENT" root; r ← find "REQ-IF-CONTENT" c;
              s ← find t r; Some (children s)).

Definition relation_blocks (root : Element) : list Element :=
  content_section "SPEC-RELATIONS" root.

Definition object_blocks (root : Element) : list Element :=
  content_section "SPEC-OBJECTS" root.

(** The object referred to by the [SOURCE] or [TARGET] of a relation
    block. *)
Definition endpoint_ref (which : string) (blk : Element) : option string :=
  s ← find which blk; r ← find "SPEC-OBJECT-REF" s; text r.

(** *** The clock in the output *)

(** The same document, created at another instant. *)
Definition with_timestamp (now : string) (g : ReqIFGenerator)
  : ReqIFGenerator :=
  MkGenerator (title g) now (spec_objects g) (spec_relations g).

(** Everything of an encoded document but its header. *)
Definition outside_header (root : Element) : list Element :=
  filter (fun e => tag e ≠ "THE-HEADER") (children root).

(** Two runs of [generate] on one generator, one after the other: both
    results and the generator left behind. *)
Definition generate_twice (lib : XmlLibrary) (output_file : string)
    (g : ReqIFGenerator)
  : (exn + string * bytes) * (exn + string * bytes) * ReqIFGenerator :=
  let '(r1, g1) := generate lib output_file g in
  let '(r2, g2) := generate lib output_file g1 in
  (r1, r2, g2).

(** The places of an encoded document that carry the timestamp: the text
    of [CREATION-TIME] in the header, and the specification blocks. *)
Definition creation_time (root : Element) : option string :=
  h ← find "THE-HEADER" root; r ← find "REQ-IF-HEADER" h;
  t ← find "CREATION-TIME" r; text t.

Definition specification_blocks (root : Element) : list Element :=
  content_section "SPECIFICATIONS" root.

Definition last_change (blk : Element) : option string :=
  assoc "LAST-CHANGE" (attrib blk).

(** The elements that carry a [LAST-CHANGE] stamp. *)
Definition stamped_tags : list string :=
  ["SPEC-OBJECT"; "SPEC-RELATION"; "SPECIFICATION"; "SPEC-HIERARCHY"].

Definition blank_stamp (kv : string * string) : string * string :=
  if String.eqb (fst kv) "LAST-CHANGE" then (fst kv, "") else kv.

(** [scrub e] blanks the text of every [CREATION-TIME] element and the
    [LAST-CHANGE] attribute of every stamped element of [e]. *)
Fixpoint scrub (e : Element) : Element :=
  match e with
  | Elem t a x kids =>
      Elem t
        (if existsb (String.eqb t) stamped_tags then map blank_stamp a else a)
        (if String.eqb t "CREATION-TIME" then Some "" else x)
        (map scrub kids)
  end.

(** *** Kinds, statuses and priorities *)

Definition valid_kinds : list string :=
  ["functional"; "interface"; "performance"].

Definition valid_relation_kinds : list string :=
  ["satisfy"; "derive"; "refine"].

Definition status_ids : list string :=
  ["EV-STATUS-DRAFT"; "EV-STATUS-WIP"; "EV-STATUS-REVIEWED";
   "EV-STATUS-APPROVED"].

Definition priority_ids : list string :=
  ["EV-PRIO-HIGH"; "EV-PRIO-MEDIUM"; "EV-PRIO-LOW"].

(** A status or priority string is recognized when, lower-cased, it is a
    key of the table. *)
Definition unrecognized (table : gmap string string) (s : string) : Prop :=
  table !! lower s = None.

(** ASCII upper case of a lower-case letter. *)
Definition upper_char (c : ascii) : ascii :=
  let n := N_of_ascii c in
  if ((97 <=? n) && (n <=? 122))%N then ascii_of_N (n - 32) else c.

(** [s] is the word [k] in some casing: letter by letter, the letter of [k]
    or its capital. *)
Fixpoint casing_of (k s : string) : Prop :=
  match k, s with
  | "", "" => True
  | String ck k', String cs s' =>
      (cs = ck \/ cs = upper_char ck) /\ casing_of k' s'
  | _, _ => False
  end.

(** A word of lower-case ASCII letters. *)
Definition lower_letter (c : ascii) : bool :=
  let n := N_of_ascii c in ((97 <=? n) && (n <=? 122))%N.

Fixpoint lower_word (k : string) : bool :=
  match k with
  | "" => true
  | String c k' => lower_letter c && lower_word k'
  end.

(** A generator that holds two requirements and a relation, and arguments
    of calls, for the examples. *)
Definition sample_args (kind : string) (status priority : option string)
  : req_args :=
  MkReqArgs kind 1001 "User Authentication" "Chapter 1.1"
    "Access control." (inr "The system shall authenticate users.")
    status priority (Some "SYS-F") None None.

Definition sample_generator : ReqIFGenerator :=
  let g0 := init "System Requirements Specification" "2024-05-01T10:00:00Z" in
  let g1 := (add_requirement
               (sample_args "functional" (Some "approved") (Some "high")) g0).2 in
  let g2 := (add_requirement
               (sample_args "interface" (Some "wip") (Some "low")) g1).2 in
  (add_relation "satisfy" "SO-I-002" "SO-F-001" None g2).2.

Definition sample_calls : list req_args :=
  [sample_args "functional" None None; sample_args "interface" None None;
   sample_args "security" None None; sample_args "functional" None None].

(** The requirement stored last. *)
Definition last_object (g : ReqIFGenerator) : option Requirement :=
  last (spec_objects g).

(** *** Sequences of calls *)

(** A caller that makes the calls one after the other and goes on after a
    call that raised; the outcomes are kept in call order. *)
Fixpoint run_calls (calls : list req_args) (g : ReqIFGenerator)
  : list (exn + string) * ReqIFGenerator :=
  match calls with
  | [] => ([], g)
  | a :: rest =>
      let '(r, g') := add_requirement a g in
      let '(rs, g'') := run_calls rest g' in
      (r :: rs, g'')
  end.

(** The identifiers returned by the calls that did not raise. *)
Definition returned_ids (rs : list (exn + string)) : list string :=
  omap (fun r => match r with inr i => Some i | inl _ => None end) rs.

(** The number written at the end of an identifier [SO-<c>-<digits>]:
    the digits after the first five characters, read in base ten. *)
Definition sequence_number (identifier : string) : option nat :=
  Nat.of_uint <$> NilEmpty.uint_of_string (slice_from 5 identifier).

(** *** Lines and bullet lists *)

(** A line of the input opens or continues a list when, its trailing white
    space removed, it starts with the marker. *)
Definition marked (raw : string) : bool := startswith "- " (rstrip raw).

(** The text of the list item made from a marked line. *)
Definition item_of (raw : string) : option string :=
  Some (strip (slice_from 2 (rstrip raw))).

(** Does the next line continue a list? *)
Definition starts_marked (lines : list string) : bool :=
  match lines with
  | l :: _ => marked l
  | [] => false
  end.

(** The maximal runs of consecutive marked lines. *)
Fixpoint marked_runs (lines : list string) : list (list string) :=
  match lines with
  | [] => []
  | l :: rest =>
      let runs := marked_runs rest in
      if marked l then
        if starts_marked rest then
          match runs with
          | r :: rs => (l :: r) :: rs
          | [] => [[l]]
          end
        else [l] :: runs
      else runs
  end.

(** [extend_last B r]: the lists [B] with [r] appended to the last one. *)
Fixpoint extend_last {A} (B : list (list A)) (r : list A) : list (list A) :=
  match B with
  | [] => [r]
  | [b] => [(b ++ r)]
  | b :: B' => b :: extend_last B' r
  end.

(** The lists [B] followed by the runs [R], the first run continuing the
    last list of [B]. *)
Definition continue_with {A} (B R : list (list A)) : list (list A) :=
  match R with
  | r :: R' => (extend_last B r ++ R')
  | [] => B
  end.

(** In list mode, [ul_elem] refers to the last child of [div], and that
    child is a bullet list. *)
Definition list_open (st : conv_state) : Prop :=
  list_mode st = true ->
  exists pre u,
    div st = (pre ++ [u]) /\ is_bullet_list u = true
    /\ ul_elem st = Some (length pre).

(** The item texts of the bullet lists that the runs of marked lines of
    [lines] stand for. *)
Definition run_items (lines : list string) : list (list (option string)) :=
  map (map item_of) (marked_runs lines).

(** The last line of [lines], if there is one, is not marked. *)
Definition ends_unmarked (lines : list string) : Prop :=
  match last lines with
  | Some l => marked l = false
  | None => True
  end.

(** White space only. *)
Fixpoint all_space (s : string) : bool :=
  match s with
  | "" => true
  | String c s' => isspace c && all_space s'
  end.

Definition non_blank (s : string) : Prop := all_space s = false.

(** ** Further vocabulary: calls, schema lookups, hierarchy *)

(** A call of one of the two public methods that change a generator. *)
Inductive call : Type :=
  | CallRequirement (a : req_args)
  | CallRelation (relation_type source_id target_id : string)
                 (identifier : option string).

(** The generator after a call; a call that raises is caught by the caller
    and leaves the generator as the method left it. *)
Definition run_call (c : call) (g : ReqIFGenerator) : ReqIFGenerator :=
  match c with
  | CallRequirement a => (add_requirement a g).2
  | CallRelation k s t i => (add_relation k s t i g).2
  end.

Fixpoint run (cs : list call) (g : ReqIFGenerator) : ReqIFGenerator :=
  match cs with
  | [] => g
  | c :: rest => run rest (run_call c g)
  end.

(** A generator as a program can have it: made by [__init__], then changed
    by calls only. *)
Definition reachable (g : ReqIFGenerator) : Prop :=
  exists title now cs, g = run cs (init title now).

(** The calls that make [sample_generator]. *)
Definition sample_history : list call :=
  [CallRequirement (sample_args "functional" (Some "approved") (Some "high"));
   CallRequirement (sample_args "interface" (Some "wip") (Some "low"));
   CallRelation "satisfy" "SO-I-002" "SO-F-001" None].

(** The number written at the end of an identifier [SR-<digits>]. *)
Definition relation_number (identifier : string) : option nat :=
  Nat.of_uint <$> NilEmpty.uint_of_string (slice_from 3 identifier).

(** The number written at the end of an identifier [SH-<digits>]. *)
Definition hierarchy_number (identifier : option string) : option nat :=
  i ← identifier; Nat.of_uint <$> NilEmpty.uint_of_string (slice_from 3 i).

Definition is_relation_call_without_identifier (c : call) : Prop :=
  match c with
  | CallRelation _ _ _ None => True
  | _ => False
  end.

(** [e.get('IDENTIFIER')] *)
Definition identifier_of (e : Element) : option string :=
  assoc "IDENTIFIER" (attrib e).

(** The type an object block or relation block refers to: the text of the
    only child of its [TYPE]. *)
Definition type_ref_of (blk : Element) : option string :=
  t ← find "TYPE" blk; r ← head (children t); text r.

(** The hierarchy entries of an encoded document: the children of the
    [CHILDREN] of its specification. *)
Definition hierarchy_entries (root : Element) : list Element :=
  default [] (s ← head (content_section "SPECIFICATIONS" root);
              c ← find "CHILDREN" s; Some (children c)).

(** The object a hierarchy entry refers to. *)
Definition hierarchy_object (h : Element) : option string :=
  o ← find "OBJECT" h; r ← find "SPEC-OBJECT-REF" o; text r.

(** The first element of [l] with the given tag and [IDENTIFIER]. *)
Definition declared (t i : string) (l : list Element) : option Element :=
  List.find (fun e => String.eqb (tag e) t
                      && match identifier_of e with
                         | Some j => String.eqb j i
                         | None => false
                         end) l.

(** The first element of [l] with the given [IDENTIFIER], whatever its
    tag. *)
Definition by_identifier (i : string) (l : list Element) : option Element :=
  List.find (fun e => match identifier_of e with
                      | Some j => String.eqb j i
                      | None => false
                      end) l.

(** [s] without the prefix [p], when it has it. *)
Fixpoint strip_prefix (p s : string) : option string :=
  match p, s with
  | "", _ => Some s
  | String a p', String b s' =>
      if Ascii.eqb a b then strip_prefix p' s' else None
  | String _ _, "" => None
  end.

(** An enumeration value [av] of an object conforms to its attribute
    definition [ad] when the value it refers to is declared by the data type
    that [ad] refers to. *)
Definition enum_value_declared (root ad av : Element) : bool :=
  match type_ref_of ad,
        (v ← find "VALUES" av; r ← find "ENUM-VALUE-REF" v; text r) with
  | Some dt, Some ev =>
      match declared "DATATYPE-DEFINITION-ENUMERATION" dt
              (content_section "DATATYPES" root) with
      | Some d =>
          match find "SPECIFIED-VALUES" d with
          | Some sv => bool_decide (is_Some (declared "ENUM-VALUE" ev (children sv)))
          | None => false
          end
      | None => false
      end
  | _, _ => false
  end.

(** An attribute value [av] of an object of type [ty] conforms to the schema
    of [root] when the definition it refers to is declared among the
    attributes of [ty], with the kind (INTEGER, STRING, XHTML, ENUMERATION)
    of [av], and, for an enumeration, when the value referred to is declared
    too. *)
Definition value_conforms (root ty av : Element) : bool :=
  match definition_ref av, strip_prefix "ATTRIBUTE-VALUE-" (tag av),
        find "SPEC-ATTRIBUTES" ty with
  | Some d, Some kind, Some sa =>
      match declared ("ATTRIBUTE-DEFINITION-" +:+ kind) d (children sa) with
      | Some ad =>
          if String.eqb kind "ENUMERATION"
          then enum_value_declared root ad av else true
      | None => false
      end
  | _, _, _ => false
  end.

(** An object block conforms when its type is a declared object type and all
    its values conform to that type. *)
Definition object_conforms (root blk : Element) : bool :=
  match type_ref_of blk with
  | Some t =>
      match declared "SPEC-OBJECT-TYPE" t (content_section "SPEC-TYPES" root) with
      | Some ty => forallb (value_conforms root ty) (object_values blk)
      | None => false
      end
  | None => false
  end.

(** A relation block conforms when its type is a declared relation type. *)
Definition relation_conforms (root blk : Element) : bool :=
  match type_ref_of blk with
  | Some t =>
      bool_decide (is_Some (declared "SPEC-RELATION-TYPE" t
                              (content_section "SPEC-TYPES" root)))
  | None => false
  end.

(** What [add_requirement] stores for kind and enumerations. *)
Definition kind_refs : list (string * string) :=
  [("T-REQ-FUNCTIONAL", "F"); ("T-REQ-INTERFACE", "I");
   ("T-REQ-PERFORMANCE", "P")].

Definition requirement_ok (req : Requirement) : Prop :=
  (req_type_ref req, req_attr_prefix req) ∈ kind_refs
  /\ req_status req ∈ status_ids
  /\ req_priority req ∈ priority_ids.

Definition relation_type_ids : list string :=
  ["T-REL-SATISFY"; "T-REL-DERIVE"; "T-REL-REFINE"].

Definition relation_ok (rel : Relation) : Prop :=
  rel_type_ref rel ∈ relation_type_ids.

(** ** Further vocabulary: the blocks of a converted text *)

(** The kind of a line whose trailing white space is gone: blank ([None]),
    list item ([Some true]) or paragraph text ([Some false]). *)
Definition kind_of (line : string) : option bool :=
  if truthy line then Some (startswith "- " line) else None.

Definition starts_with_kind (k : bool) (lines : list string) : bool :=
  match lines with
  | l :: _ => bool_decide (kind_of l = Some k)
  | [] => false
  end.

(** The maximal runs of consecutive lines of one kind, blank lines left out,
    each with its kind. *)
Fixpoint segments (lines : list string) : list (bool * list string) :=
  match lines with
  | [] => []
  | l :: rest =>
      let segs := segments rest in
      match kind_of l with
      | None => segs
      | Some k =>
          if starts_with_kind k rest then
            match segs with
            | (_, r) :: segs' => (k, l :: r) :: segs'
            | [] => [(k, [l])]
            end
          else (k, [l]) :: segs
      end
  end.

(** The block a run stands for: a bullet list with one item per line, the
    text of an item being the line after its marker, stripped; or one
    paragraph, its text being the lines joined by line feeds, stripped. *)
Definition block_of (seg : bool * list string) : Element :=
  if seg.1 then
    Elem (ns +:+ "ul") [] None
      (map (fun l => xhtml_li (strip (slice_from 2 l))) seg.2)
  else xhtml_p (strip (join_lf seg.2)).

(** What is left to do after the loop: the trailing paragraph. *)
Definition conv_finish (st : conv_state) : list Element :=
  if nonempty (buffer st) then flush_paragraph (div st) (buffer st)
  else div st.

(** The state of the loop stands for the blocks [E] already complete and the
    lines [pend] of the run that is still open. *)
Definition represents (st : conv_state) (E : list Element)
    (pend : list string) : Prop :=
  if list_mode st then
    buffer st = [] /\ pend <> []
    /\ Forall (fun l => kind_of l = Some true) pend
    /\ div st = E ++ [block_of (true, pend)]
    /\ ul_elem st = Some (length E)
  else
    buffer st = pend
    /\ Forall (fun l => kind_of l = Some false /\ all_space l = false) pend
    /\ div st = E.

(** A block as the converter makes them: a paragraph with a text that is
    not empty and has no white space at either end, or a bullet list with at
    least one item, every item with such a text. *)
Definition clean_text (e : Element) : Prop :=
  exists t, text e = Some t /\ t <> "" /\ strip t = t
            /\ attrib e = [] /\ children e = [].

Definition well_formed_block (e : Element) : Prop :=
  (is_paragraph e = true /\ clean_text e)
  \/ (is_bullet_list e = true /\ children e <> []
      /\ Forall (fun li => tag li = ns +:+ "li" /\ clean_text li)
           (children e)).

(** No line feed and no carriage return. *)
Fixpoint no_line_break (s : string) : bool :=
  match s with
  | "" => true
  | String c s' => negb (Ascii.eqb c LF) && negb (Ascii.eqb c CR)
                   && no_line_break s'
  end.

(** ** excel_to_reqif.py: [_normalize_key] *)

Definition TAB : ascii := "009"%char.

(** [s.replace(old, new)] for single characters. *)
Fixpoint replace_char (old new : ascii) (s : string) : string :=
  match s with
  | "" => ""
  | String c s' =>
      String (if Ascii.eqb c old then new else c) (replace_char old new s')
  end.

(** ['__' in s] *)
Fixpoint contains_dunder (s : string) : bool :=
  match s with
  | "" => false
  | String c s' =>
      (Ascii.eqb c "_"
       && match s' with
          | String c' _ => Ascii.eqb c' "_"
          | "" => false
          end)
      || contains_dunder s'
  end.

(** [s.replace('__', '_')]: one pass from the left, over pairs that do not
    overlap. *)
Fixpoint replace_dunder (s : string) : string :=
  match s with
  | "" => ""
  | String c s' =>
      if Ascii.eqb c "_" then
        match s' with
        | String c' s'' =>
            if Ascii.eqb c' "_" then String "_" (replace_dunder s'')
            else String c (replace_dunder s')
        | "" => String c ""
        end
      else String c (replace_dunder s')
  end.

(** [while '__' in s: s = s.replace('__', '_')], with a bound on the number
    of rounds; [None] when the bound is reached. *)
Fixpoint collapse_loop (fuel : nat) (s : string) : option string :=
  match fuel with
  | O => None
  | S fuel' =>
      if contains_dunder s then collapse_loop fuel' (replace_dunder s)
      else Some s
  end.

(** The part of [_normalize_key] before its loop. *)
Definition normalize_prepare (s : string) : string :=
  replace_char TAB "_"
    (replace_char "-" "_" (replace_char " " "_" (lower (strip s)))).

(** [_normalize_key(s)] for a [str]; one round more than the string is long
    is allowed to the loop. *)
Definition _normalize_key (s : string) : option string :=
  let s := normalize_prepare s in
  collapse_loop (S (String.length s)) s.

(** Every run of underscores made one underscore. *)
Fixpoint squeeze (s : string) : string :=
  match s with
  | "" => ""
  | String c s' =>
      if Ascii.eqb c "_"
         && match s' with
            | String c' _ => Ascii.eqb c' "_"
            | "" => false
            end
      then squeeze s'
      else String c (squeeze s')
  end.

Fixpoint all_chars (P : ascii -> bool) (s : string) : bool :=
  match s with
  | "" => true
  | String c s' => P c && all_chars P s'
  end.

(** A character as a normalized key holds them: no space, hyphen or tab,
    and nothing that [lower] would change. *)
Definition key_char (c : ascii) : bool :=
  negb (Ascii.eqb c " ") && negb (Ascii.eqb c "-") && negb (Ascii.eqb c TAB)
  && Ascii.eqb (lower_char c) c.

(** A function applied to every character. *)
Fixpoint map_chars (f : ascii -> ascii) (s : string) : string :=
  match s with
  | "" => ""
  | String c s' => String (f c) (map_chars f s')
  end.

(** What [normalize_prepare] does to one character. *)
Definition prepare_char (c : ascii) : ascii :=
  let c := lower_char c in
  let c := if Ascii.eqb c " " then "_"%char else c in
  let c := if Ascii.eqb c "-" then "_"%char else c in
  if Ascii.eqb c TAB then "_"%char else c.

(** ** excel_to_reqif.py: the row mapper in [main]

    A row is a mapping from normalized column names to cells.  The cells of
    the rows modelled here are strings or [None] (an empty cell as openpyxl
    reads it); numbers, dates and other values are left out. *)

(** [_normalize_records] for one record: [nrec[_normalize_key(k)] = v] for
    the items of [rec] in their order. *)
Fixpoint normalize_record {V} (items : list (string * V))
    (nrec : gmap string V) : option (gmap string V) :=
  match items with
  | [] => Some nrec
  | (k, v) :: rest =>
      match _normalize_key k with
      | Some k' => normalize_record rest (<[k' := v]> nrec)
      | None => None
      end
  end.

Fixpoint _normalize_records {V} (records : list (list (string * V)))
  : option (list (gmap string V)) :=
  match records with
  | [] => Some []
  | rec :: rest =>
      match normalize_record rec ∅, _normalize_records rest with
      | Some nrec, Some out => Some (nrec :: out)
      | _, _ => None
      end
  end.

(** The value of the last item of a record whose key normalizes to
    [name]. *)
Fixpoint last_named {V} (name : string) (items : list (string * V))
  : option V :=
  match items with
  | [] => None
  | (k, v) :: rest =>
      match last_named name rest with
      | Some w => Some w
      | None => if bool_decide (_normalize_key k = Some name) then Some v
                else None
      end
  end.

(** A cell: a string, or [None]. *)
Definition cell : Type := option string.

(** [row.get(k1, row.get(k2, ''))] and [row.get(k, '')] *)
Definition get2 (row : gmap string cell) (k1 k2 : string) : cell :=
  default (default (Some "") (row !! k2)) (row !! k1).

Definition get1 (row : gmap string cell) (k : string) : cell :=
  default (Some "") (row !! k).

(** [row.get(k)] *)
Definition get0 (row : gmap string cell) (k : string) : cell :=
  default None (row !! k).

(** [a or b] for strings *)
Definition or_str (a b : string) : string := if truthy a then a else b.

(** [str(x)] for a cell *)
Definition str_opt (x : cell) : string := default "None" x.

(** [str(x).strip()] and [str(x or '').strip()] for a cell *)
Definition text_of (x : cell) : string := strip (str_opt x).

Definition text_or_empty (x : cell) : string :=
  strip (match x with Some s => s | None => "" end).

(** [needle in hay] *)
Fixpoint contains (needle hay : string) : bool :=
  startswith needle hay
  || match hay with
     | String _ hay' => contains needle hay'
     | "" => false
     end.

Definition TYPE_MAP : gmap string string :=
  list_to_map
    [("functional", "functional"); ("func", "functional");
     ("fr", "functional"); ("f", "functional");
     ("interface", "interface"); ("if", "interface");
     ("ir", "interface"); ("i", "interface");
     ("performance", "performance"); ("perf", "performance");
     ("pr", "performance"); ("p", "performance");
     ("non-functional", "performance"); ("nfr", "performance")].

(** The kind of a row from its [raw_type], or [None] when the row is to be
    skipped. *)
Definition classify (raw_type : string) : option string :=
  match TYPE_MAP !! raw_type with
  | Some type_val => Some type_val
  | None =>
      if contains "functional" raw_type then Some "functional"
      else if contains "interface" raw_type then Some "interface"
      else if contains "performance" raw_type
              || contains "non-functional" raw_type then Some "performance"
      else None
  end.

Definition default_prefix : gmap string string :=
  list_to_map
    [("functional", "SYS-F"); ("interface", "SYS-I");
     ("performance", "SYS-P")].

(** The variables of [main] that the two loops change. *)
Record mapper_state : Type := MapperState {
  generator : ReqIFGenerator;
  id_map : gmap string string;
  warnings : list string;
  added_reqs : nat;
  added_rels : nat
}.

Section RowMapper.

(** [int(s)] for a string: the number, or [None] when it raises. *)
Variable py_int : string -> option Z.

(** [_ensure_int(val)] for a cell. *)
Definition _ensure_int (val : cell) : Z :=
  match val with
  | None => 0%Z
  | Some s =>
      match py_int s with
      | Some z => z
      | None =>
          match py_int (strip s) with
          | Some z => z
          | None => 0%Z
          end
      end
  end.

(** [order_key(rec)]; [int(None)] raises. *)
Definition order_key (rec : gmap string cell) : Z :=
  match get1 rec "order" with
  | Some s => default 1000000%Z (py_int s)
  | None => 1000000%Z
  end.

(** The body of [for row in req_rows_sorted]; [None] stands for an exception
    that leaves [main] (the [KeyError] of the default prefix, an exception of
    the converter or of [add_requirement]). *)
Definition process_req_row (row : gmap string cell) (st : mapper_state)
  : option mapper_state :=
  let raw_type := lower (text_of (get2 row "type" "req_type")) in
  match classify raw_type with
  | None =>
      let shown :=
        match get0 row "type" with
        | Some t => if truthy t then Some t else get0 row "req_type"
        | None => get0 row "req_type"
        end in
      Some (MapperState (generator st) (id_map st)
              (warnings st
               ++ ["Row skipped: invalid Type '" +:+ str_opt shown +:+ "'."])
              (added_reqs st) (added_rels st))
  | Some type_val =>
      let ie_puid := text_of (get2 row "ie_puid" "iepuid") in
      let foreign_id := _ensure_int (get2 row "foreign_id" "foreignid") in
      let name := text_of (get1 row "name") in
      let chapter := text_of (get1 row "chapter") in
      let description := text_of (get2 row "description" "desc") in
      let text_plain := text_or_empty (get2 row "text" "text_content") in
      let text_html := text_or_empty (get2 row "texthtml" "text_html") in
      let status := or_str (text_or_empty (get1 row "status")) "approved" in
      let priority := or_str (text_or_empty (get1 row "priority")) "medium" in
      let prefix_cell := text_or_empty (get2 row "reqprefix" "req_prefix") in
      match (if truthy prefix_cell then Some prefix_cell
             else default_prefix !! type_val) with
      | None => None
      | Some req_prefix =>
          let identifier :=
            let i := text_or_empty (get2 row "identifier" "spec_object_id") in
            if truthy i then Some i else None in
          let text_source :=
            if truthy text_plain then text_plain
            else if truthy text_html && startswith "<" text_html
                 then text_html
                 else or_str description name in
          match build_xhtml_from_text text_source with
          | None => None
          | Some text_content =>
              match
                add_requirement
                  (MkReqArgs type_val foreign_id
                     (or_str name (or_str ie_puid "Untitled")) chapter
                     description (inl text_content) (Some status)
                     (Some priority) (Some req_prefix) identifier
                     (if truthy ie_puid then Some ie_puid else None))
                  (generator st)
              with
              | (inr so_id, g) =>
                  Some (MapperState g
                          (if truthy ie_puid
                           then <[ie_puid := so_id]> (id_map st)
                           else id_map st)
                          (warnings st) (added_reqs st + 1) (added_rels st))
              | (inl _, _) => None
              end
          end
      end
  end.

(** The body of [for row in rel_rows]. *)
Definition process_rel_row (row : gmap string cell) (st : mapper_state)
  : option mapper_state :=
  let rtype := lower (text_of (get2 row "relationtype" "relation_type")) in
  let src_ie := text_of (get2 row "sourceiepuid" "source_ie_puid") in
  let tgt_ie := text_of (get2 row "targetiepuid" "target_ie_puid") in
  let src_id_direct := text_of (get1 row "source_id") in
  let tgt_id_direct := text_of (get1 row "target_id") in
  let rid :=
    let i := text_or_empty (get1 row "identifier") in
    if truthy i then Some i else None in
  let warn w :=
    Some (MapperState (generator st) (id_map st) (warnings st ++ [w])
            (added_reqs st) (added_rels st)) in
  let add src tgt :=
    match add_relation rtype src tgt rid (generator st) with
    | (inr _, g) =>
        Some (MapperState g (id_map st) (warnings st) (added_reqs st)
                (added_rels st + 1))
    | (inl _, _) => None
    end in
  if negb (bool_decide (rtype ∈ valid_relation_kinds)) then
    warn ("Relation skipped: invalid RelationType '"
          +:+ str_opt (get0 row "RelationType") +:+ "'.")
  else if truthy src_id_direct && truthy tgt_id_direct then
    add src_id_direct tgt_id_direct
  else if negb (truthy src_ie) || negb (truthy tgt_ie) then
    warn "Relation skipped: missing SourceIEPUID/TargetIEPUID and no direct IDs provided."
  else
    match id_map st !! src_ie, id_map st !! tgt_ie with
    | Some src, Some tgt =>
        if truthy src && truthy tgt then add src tgt
        else warn ("Relation skipped: could not resolve IDs: " +:+ src_ie
                   +:+ " -> " +:+ tgt_ie +:+ ".")
    | _, _ =>
        warn ("Relation skipped: could not resolve IDs: " +:+ src_ie
              +:+ " -> " +:+ tgt_ie +:+ ".")
    end.

(** [sorted(rows, key=order_key)]: the stable sort by key; an element goes
    before the first element of the sorted rest whose key is not smaller. *)
Fixpoint insert_sorted (x : gmap string cell)
    (l : list (gmap string cell)) : list (gmap string cell) :=
  match l with
  | [] => [x]
  | y :: l' =>
      if (order_key x <=? order_key y)%Z then x :: y :: l'
      else y :: insert_sorted x l'
  end.

Fixpoint sorted_rows (rows : list (gmap string cell))
  : list (gmap string cell) :=
  match rows with
  | [] => []
  | x :: rows' => insert_sorted x (sorted_rows rows')
  end.

(** A loop over rows. *)
Fixpoint for_rows
    (body : gmap string cell -> mapper_state -> option mapper_state)
    (rows : list (gmap string cell)) (st : mapper_state)
  : option mapper_state :=
  match rows with
  | [] => Some st
  | row :: rest =>
      match body row st with
      | Some st' => for_rows body rest st'
      | None => None
      end
  end.

(** [main] from the rows read to the state before [generate];
    [now] is the time [ReqIFGenerator] reads at its creation. *)
Definition map_rows (now : string)
    (req_rows rel_rows : list (gmap string cell)) : option mapper_state :=
  let st0 :=
    MapperState (init "System Requirements Specification" now) ∅ [] 0 0 in
  match for_rows process_req_row (sorted_rows req_rows) st0 with
  | Some st1 => for_rows process_rel_row rel_rows st1
  | None => None
  end.

End RowMapper.

(** The identifiers that [id_map] holds name stored objects. *)
Definition id_map_resolves (st : mapper_state) : Prop :=
  forall k v, id_map st !! k = Some v ->
    v ∈ map req_identifier (spec_objects (generator st)).

(** A reader of integers for the examples: digits only. *)
Definition digits_int (s : string) : option Z :=
  match s with
  | "" => None
  | _ => Z.of_nat <$> (Nat.of_uint <$> NilEmpty.uint_of_string s)
  end.

(** * Properties *)

(** ** Tables *)

Ltac prove_elem :=
  repeat first [apply list_elem_of_here | apply list_elem_of_further].

Lemma type_map_invalid (k : string) :
  k ∉ valid_kinds -> type_map !! k = None.
Proof.
  intros H. unfold type_map, valid_kinds in *.
  rewrite !lookup_insert_ne by (intros <-; apply H; set_solver).
  apply lookup_empty.
Qed.

Lemma type_map_valid (k : string) :
  k ∈ valid_kinds ->
  exists type_ref short, type_map !! k = Some (type_ref, short, short)
    /\ String.length short = 1.
Proof.
  unfold valid_kinds. rewrite !elem_of_cons, elem_of_nil.
  intros [-> | [-> | [-> | []]]]; eexists _, _; split; reflexivity.
Qed.

Lemma rel_type_map_valid (k : string) :
  k ∈ valid_relation_kinds -> is_Some (rel_type_map !! k).
Proof.
  unfold valid_relation_kinds. rewrite !elem_of_cons, elem_of_nil.
  intros [-> | [-> | [-> | []]]]; eexists; reflexivity.
Qed.

Lemma status_values_range (k : string) :
  dict_get status_values k "EV-STATUS-APPROVED" ∈ status_ids.
Proof.
  unfold dict_get, status_values, status_ids.
  repeat (rewrite lookup_insert; case_decide; [simpl; set_solver |]).
  rewrite lookup_empty. simpl. set_solver.
Qed.

Lemma priority_values_range (k : string) :
  dict_get priority_values k "EV-PRIO-MEDIUM" ∈ priority_ids.
Proof.
  unfold dict_get, priority_values, priority_ids.
  repeat (rewrite lookup_insert; case_decide; [simpl; set_solver |]).
  rewrite lookup_empty. simpl. set_solver.
Qed.

(** ** [add_requirement] *)

(** The requirement that a call with a valid kind stores. *)
Lemma add_requirement_ok (a : req_args) (g : ReqIFGenerator)
    (type_ref short attr_prefix : string) :
  type_map !! a_req_type a = Some (type_ref, short, attr_prefix) ->
  exists req,
    add_requirement a g
    = (inr (req_identifier req),
       MkGenerator (title g) (timestamp g) (spec_objects g ++ [req])
         (spec_relations g))
    /\ req =
       let n := zfill 3 (str_nat (length (spec_objects g) + 1)) in
       MkRequirement
         (default ("SO-" +:+ short +:+ "-" +:+ n) (a_identifier a))
         type_ref (a_foreign_id a) (a_name a)
         (a_chapter a) (a_description a) (a_text_content a)
         (dict_get status_values (lower (default "approved" (a_status a)))
            "EV-STATUS-APPROVED")
         (dict_get priority_values (lower (default "high" (a_priority a)))
            "EV-PRIO-MEDIUM")
         (default "SYS" (a_req_prefix a)) attr_prefix
         (default ("REQ-" +:+ n) (a_ie_puid a)).
Proof.
  intros H. eexists. split; [| reflexivity].
  unfold add_requirement. rewrite H.
  destruct (a_identifier a), (a_ie_puid a); reflexivity.
Qed.

Example sample_generator_ids :
  map req_identifier (spec_objects sample_generator) = ["SO-F-001"; "SO-I-002"]
  /\ map rel_identifier (spec_relations sample_generator) = ["SR-001"].
Proof. split; reflexivity. Qed.

(** C6. A call of [add_requirement] whose kind is none of functional,
    interface, performance raises [ValueError] (the invalid-kind error) and
    leaves the generator exactly as it was: same objects, same relations,
    same title and timestamp. *)
Theorem add_requirement_invalid_kind (a : req_args) (g : ReqIFGenerator) :
  a_req_type a ∉ valid_kinds ->
  add_requirement a g
  = (inl (ValueError ("Invalid req_type: " +:+ a_req_type a)), g).
Proof.
  intros H. unfold add_requirement.
  rewrite (type_map_invalid _ H). reflexivity.
Qed.

Lemma add_requirement_invalid_kind_witness :
  ("security" ∉ valid_kinds)
  /\ add_requirement (sample_args "security" None None) sample_generator
     = (inl (ValueError "Invalid req_type: security"), sample_generator).
Proof.
  assert (H : "security" ∉ valid_kinds).
  { unfold valid_kinds. rewrite !elem_of_cons, elem_of_nil.
    intros [H | [H | [H | []]]]; discriminate H. }
  split; [exact H |].
  exact (add_requirement_invalid_kind (sample_args "security" None None)
           sample_generator H).
Defined.

(** ** Status and priority *)

Lemma lower_letter_fix (c : ascii) :
  lower_letter c = true ->
  lower_char c = c /\ lower_char (upper_char c) = c.
Proof.
  destruct c as [[] [] [] [] [] [] [] []]; vm_compute;
    first [discriminate | split; reflexivity].
Qed.

Lemma casing_lower (k s : string) :
  lower_word k = true -> casing_of k s -> lower s = k.
Proof.
  revert s. induction k as [| c k IH]; intros [| c' s]; simpl; try tauto.
  intros Hk [Hc Hs]. apply andb_true_iff in Hk as [Hc0 Hk].
  destruct (lower_letter_fix c Hc0) as [H1 H2].
  rewrite (IH s Hk Hs). destruct Hc as [-> | ->]; congruence.
Qed.

Lemma status_keys (k v : string) :
  status_values !! k = Some v -> lower_word k = true.
Proof.
  unfold status_values.
  repeat (rewrite lookup_insert; case_decide; [subst; reflexivity |]).
  rewrite lookup_empty. discriminate.
Qed.

Lemma priority_keys (k v : string) :
  priority_values !! k = Some v -> lower_word k = true.
Proof.
  unfold priority_values.
  repeat (rewrite lookup_insert; case_decide; [subst; reflexivity |]).
  rewrite lookup_empty. discriminate.
Qed.

(** C3, as amended.  For every call of [add_requirement] with a valid kind
    the call succeeds and stores one more requirement, for which: the status
    is approved when the status argument is left out or is unrecognized; the
    priority is medium when the priority argument is given and is
    unrecognized; and status and priority are always among the fixed
    enumeration identifiers. *)
Theorem add_requirement_defaults (a : req_args) (g : ReqIFGenerator) :
  a_req_type a ∈ valid_kinds ->
  exists req,
    add_requirement a g
    = (inr (req_identifier req),
       MkGenerator (title g) (timestamp g) (spec_objects g ++ [req])
         (spec_relations g))
    /\ (a_status a = None
        \/ (exists s, a_status a = Some s /\ unrecognized status_values s) ->
        req_status req = "EV-STATUS-APPROVED")
    /\ (forall s, a_priority a = Some s -> unrecognized priority_values s ->
        req_priority req = "EV-PRIO-MEDIUM")
    /\ req_status req ∈ status_ids
    /\ req_priority req ∈ priority_ids.
Proof.
  intros Hk. destruct (type_map_valid _ Hk) as (tr & sh & Hm & _).
  destruct (add_requirement_ok a g tr sh sh Hm) as (req & Hrun & Hreq).
  exists req. split; [exact Hrun |]. subst req. cbn [req_status req_priority].
  split; [| split; [| split]].
  - intros [-> | (s & -> & Hs)]; [reflexivity |].
    unfold unrecognized in Hs. unfold dict_get. simpl. rewrite Hs. reflexivity.
  - intros s -> Hs. unfold unrecognized in Hs. unfold dict_get. simpl.
    rewrite Hs. reflexivity.
  - apply status_values_range.
  - apply priority_values_range.
Qed.

Lemma add_requirement_defaults_witness :
  exists req,
    add_requirement (sample_args "interface" None (Some "urgent"))
      sample_generator
    = (inr (req_identifier req),
       MkGenerator (title sample_generator) (timestamp sample_generator)
         (spec_objects sample_generator ++ [req])
         (spec_relations sample_generator))
    /\ req_status req = "EV-STATUS-APPROVED"
    /\ req_priority req = "EV-PRIO-MEDIUM".
Proof.
  destruct (add_requirement_defaults
              (sample_args "interface" None (Some "urgent")) sample_generator)
    as (req & Hrun & Hst & Hpr & _).
  { prove_elem. }
  exists req. split; [exact Hrun |]. split.
  - apply Hst. left. reflexivity.
  - apply (Hpr "urgent"); reflexivity.
Defined.

(** The empty string is an unrecognized status and an unrecognized
    priority. *)
Example empty_string_unrecognized :
  unrecognized status_values "" /\ unrecognized priority_values "".
Proof. split; reflexivity. Qed.

(** C3, as written, fails: with a valid kind and the priority argument left
    out, the default of the signature, high, is stored, not medium. *)
Lemma priority_left_out_not_medium :
  ~ (forall (a : req_args) (g : ReqIFGenerator) (req : Requirement),
       a_req_type a ∈ valid_kinds ->
       last_object (add_requirement a g).2 = Some req ->
       (a_status a = None
        \/ (exists s, a_status a = Some s /\ unrecognized status_values s) ->
        req_status req = "EV-STATUS-APPROVED")
       /\ (a_priority a = None
           \/ (exists s, a_priority a = Some s
                         /\ unrecognized priority_values s) ->
           req_priority req = "EV-PRIO-MEDIUM")
       /\ req_status req ∈ status_ids
       /\ req_priority req ∈ priority_ids).
Proof.
  intros H.
  pose (a := sample_args "functional" None None).
  pose (g := init "T" "2024-05-01T10:00:00Z").
  assert (Hk : a_req_type a ∈ valid_kinds) by prove_elem.
  destruct (last_object (add_requirement a g).2) as [req |] eqn:Hl;
    [| discriminate Hl].
  destruct (H a g req Hk Hl) as (_ & Hp & _).
  specialize (Hp (or_introl eq_refl)).
  vm_compute in Hl. injection Hl as <-. discriminate Hp.
Qed.

(** C9.  With a valid kind, status and priority are matched without regard
    to case: a status argument that is a key of the status table in any
    casing is stored as the identifier of that key, and likewise for the
    priority; no fallback to the default happens. *)
Theorem add_requirement_case_insensitive (a : req_args) (g : ReqIFGenerator) :
  a_req_type a ∈ valid_kinds ->
  exists req,
    add_requirement a g
    = (inr (req_identifier req),
       MkGenerator (title g) (timestamp g) (spec_objects g ++ [req])
         (spec_relations g))
    /\ (forall k v s, status_values !! k = Some v -> casing_of k s ->
        a_status a = Some s -> req_status req = v)
    /\ (forall k v s, priority_values !! k = Some v -> casing_of k s ->
        a_priority a = Some s -> req_priority req = v).
Proof.
  intros Hk. destruct (type_map_valid _ Hk) as (tr & sh & Hm & _).
  destruct (add_requirement_ok a g tr sh sh Hm) as (req & Hrun & Hreq).
  exists req. split; [exact Hrun |]. subst req. cbn [req_status req_priority].
  split.
  - intros k v s Hkv Hc ->. simpl.
    rewrite (casing_lower k s (status_keys k v Hkv) Hc).
    unfold dict_get. rewrite Hkv. reflexivity.
  - intros k v s Hkv Hc ->. simpl.
    rewrite (casing_lower k s (priority_keys k v Hkv) Hc).
    unfold dict_get. rewrite Hkv. reflexivity.
Qed.

Lemma add_requirement_case_insensitive_witness :
  exists req,
    add_requirement (sample_args "performance" (Some "ReViEwEd") (Some "LOW"))
      sample_generator
    = (inr (req_identifier req),
       MkGenerator (title sample_generator) (timestamp sample_generator)
         (spec_objects sample_generator ++ [req])
         (spec_relations sample_generator))
    /\ req_status req = "EV-STATUS-REVIEWED"
    /\ req_priority req = "EV-PRIO-LOW".
Proof.
  destruct (add_requirement_case_insensitive
              (sample_args "performance" (Some "ReViEwEd") (Some "LOW"))
              sample_generator)
    as (req & Hrun & Hst & Hpr).
  { prove_elem. }
  exists req. split; [exact Hrun |]. split.
  - apply (Hst "reviewed" _ "ReViEwEd"); [reflexivity | | reflexivity].
    simpl. repeat split; (left; reflexivity) || (right; reflexivity).
  - apply (Hpr "low" _ "LOW"); [reflexivity | | reflexivity].
    simpl. repeat split; (left; reflexivity) || (right; reflexivity).
Defined.

(** ** The encoder *)

Lemma object_blocks_generate (g : ReqIFGenerator) :
  object_blocks (generate_root g) = _create_spec_objects g.
Proof. reflexivity. Qed.

Lemma relation_blocks_generate (g : ReqIFGenerator) :
  relation_blocks (generate_root g) = _create_spec_relations g.
Proof. reflexivity. Qed.

Lemma spec_object_values (g : ReqIFGenerator) (req : Requirement) :
  let so := spec_object g req in
  tag so = "SPEC-OBJECT"
  /\ map definition_ref (object_values so)
     = map (fun sfx => Some (req_attr_prefix req +:+ sfx)) value_suffixes
  /\ map carried_value (object_values so) = map Some (stored_values req).
Proof. repeat split. Qed.

Lemma value_order_permutes (p : string) :
  map (fun sfx => Some (p +:+ sfx)) value_suffixes
  ≡ₚ catalog_attribute_ids p.
Proof.
  unfold value_suffixes, catalog_attribute_ids. simpl.
  do 2 apply Permutation_skip. apply Permutation_swap.
Qed.

(** C1, as amended.  In the encoding of every document, the object blocks
    are the stored requirements in order, and each block carries the nine
    values of its requirement in one fixed order: ForeignID, Name,
    ChapterName, ExternalKey (IE PUID), Description, Prefix, Text, Status,
    Priority.  Each value names its attribute definition with the attribute
    prefix of the requirement, and the nine definitions named are those the
    catalog declares for that prefix, in another order. *)
Theorem object_block_value_order (g : ReqIFGenerator) :
  Forall2
    (fun req so =>
       tag so = "SPEC-OBJECT"
       /\ map definition_ref (object_values so)
          = map (fun sfx => Some (req_attr_prefix req +:+ sfx)) value_suffixes
       /\ map carried_value (object_values so) = map Some (stored_values req)
       /\ map definition_ref (object_values so)
          ≡ₚ catalog_attribute_ids (req_attr_prefix req))
    (spec_objects g) (object_blocks (generate_root g)).
Proof.
  rewrite object_blocks_generate. unfold _create_spec_objects.
  induction (spec_objects g) as [| req objs IH]; simpl; constructor; [| exact IH].
  destruct (spec_object_values g req) as (Ht & Hd & Hv).
  split; [exact Ht |]. split; [exact Hd |]. split; [exact Hv |].
  rewrite Hd. apply value_order_permutes.
Qed.

(** C1, as written, fails: the values of an object block do not follow the
    order in which the catalog declares the attributes.  The catalog has
    IE PUID before ChapterName, the block has ChapterName before IE PUID. *)
Lemma object_block_not_in_catalog_order :
  ~ (forall g : ReqIFGenerator,
       Forall2
         (fun req so =>
            map definition_ref (object_values so)
            = catalog_attribute_ids (req_attr_prefix req))
         (spec_objects g) (object_blocks (generate_root g))).
Proof.
  intros H. specialize (H sample_generator).
  apply Forall2_cons_inv_l in H as (so & rest & Hso & _ & Heq).
  vm_compute in Heq. injection Heq as <- _.
  vm_compute in Hso. discriminate Hso.
Qed.

Example sample_catalog_order :
  catalog_attribute_ids "F"
  = map Some ["F-AD-FOREIGNID"; "F-AD-NAME"; "F-AD-IEPUID"; "F-AD-CHAP";
              "F-AD-DESC"; "F-AD-PREFIX"; "F-AD-TEXT"; "F-AD-STATUS";
              "F-AD-PRIORITY"].
Proof. reflexivity. Qed.

Example sample_block_order :
  map definition_ref <$> (object_values <$> head (object_blocks (generate_root sample_generator)))
  = Some (map Some ["F-AD-FOREIGNID"; "F-AD-NAME"; "F-AD-CHAP"; "F-AD-IEPUID";
                    "F-AD-DESC"; "F-AD-PREFIX"; "F-AD-TEXT"; "F-AD-STATUS";
                    "F-AD-PRIORITY"]).
Proof. reflexivity. Qed.

(** ** The XML library *)

Lemma generate_run (lib : XmlLibrary) (output_file : string)
    (g : ReqIFGenerator) :
  generate lib output_file g
  = (match serialize lib (generate_root g) with
     | inl e => inl e
     | inr xml_str => inr (output_file, xml_str)
     end, g).
Proof.
  unfold generate, mbind, M_bind, bind, get_self, lift.
  destruct (serialize lib (generate_root g)); reflexivity.
Qed.

Lemma serialize_rejects (lib : XmlLibrary) (root : Element) :
  rejects_forbidden lib -> has_forbidden_char root = true ->
  exists err, serialize lib root = inl err.
Proof.
  intros Hlib Hbad. unfold serialize.
  destruct (tostring lib root) as [e | xml] eqn:Hx; [exists e; reflexivity |].
  destruct (Hlib root xml Hbad Hx) as [msg ->]. eexists. reflexivity.
Qed.

Lemma forbidden_in_child (t : string) (a : list (string * string))
    (x : option string) (kids : list Element) (k : Element) :
  In k kids -> has_forbidden_char k = true ->
  has_forbidden_char (Elem t a x kids) = true.
Proof.
  intros Hin Hk. cbn [has_forbidden_char].
  apply orb_true_iff. right. apply existsb_exists. exists k. auto.
Qed.

Lemma forbidden_in_text (t : string) (a : list (string * string))
    (s : string) (kids : list Element) :
  xml_string s = false -> has_forbidden_char (Elem t a (Some s) kids) = true.
Proof.
  intros Hs. cbn. rewrite Hs. cbn. rewrite orb_true_r. reflexivity.
Qed.

Lemma forbidden_in_relation (g : ReqIFGenerator) (rel : Relation) :
  In rel (spec_relations g) ->
  xml_string (rel_source rel) = false \/ xml_string (rel_target rel) = false ->
  has_forbidden_char (generate_root g) = true.
Proof.
  intros Hin Hbad. unfold generate_root, node.
  eapply forbidden_in_child; [right; left; reflexivity |].
  eapply forbidden_in_child; [left; reflexivity |].
  eapply forbidden_in_child; [do 3 right; left; reflexivity |].
  eapply forbidden_in_child;
    [apply in_map with (f := spec_relation g); exact Hin |].
  unfold spec_relation, node, leaf. destruct Hbad as [Hs | Ht].
  - eapply forbidden_in_child; [right; left; reflexivity |].
    eapply forbidden_in_child; [left; reflexivity |].
    apply forbidden_in_text, Hs.
  - eapply forbidden_in_child; [do 2 right; left; reflexivity |].
    eapply forbidden_in_child; [left; reflexivity |].
    apply forbidden_in_text, Ht.
Qed.

Lemma Element_induction (P : Element -> Prop) :
  (forall t a x kids, Forall P kids -> P (Elem t a x kids)) ->
  forall e, P e.
Proof.
  intros H. fix IH 1. intros [t a x kids]. apply H.
  induction kids as [| k kids IHk]; constructor; [apply IH | exact IHk].
Qed.

Lemma xml_string_chars (s : string) :
  forallb xml_char (String.list_ascii_of_string s) = xml_string s.
Proof.
  induction s as [| c s IH]; [reflexivity |].
  cbn [String.list_ascii_of_string forallb xml_string]. rewrite IH.
  reflexivity.
Qed.

Lemma forallb_flat_map {A B} (p : B -> bool) (f : A -> list B) (l : list A) :
  forallb p (flat_map f l) = forallb (fun x => forallb p (f x)) l.
Proof.
  induction l as [| x l IH]; [reflexivity |].
  cbn [flat_map forallb]. rewrite forallb_app, IH. reflexivity.
Qed.

Lemma plain_chars_allowed (e : Element) :
  forallb xml_char (plain_chars e) = negb (has_forbidden_char e).
Proof.
  induction e as [t a x kids IH] using Element_induction.
  cbn [plain_chars has_forbidden_char].
  rewrite !forallb_app, !forallb_flat_map, xml_string_chars, !negb_orb.
  rewrite negb_involutive.
  assert (Ha : forallb (fun kv : string * string =>
                          forallb xml_char
                            (String.list_ascii_of_string (snd kv))) a
               = negb (existsb (fun kv => negb (xml_string (snd kv))) a)).
  { induction a as [| kv a IHa]; [reflexivity |].
    cbn [forallb existsb].
    rewrite xml_string_chars, IHa, negb_orb, negb_involutive. reflexivity. }
  assert (Hk : forallb (fun k => forallb xml_char (plain_chars k)) kids
               = negb (existsb has_forbidden_char kids)).
  { induction IH as [| k kids Hk _ IHk]; [reflexivity |].
    cbn [forallb existsb]. rewrite Hk, IHk, negb_orb. reflexivity. }
  rewrite Ha, Hk, andb_assoc. reflexivity.
Qed.

Lemma forallb_bytes (l : list ascii) :
  forallb (fun b => xml_char (ascii_of_byte b)) (map byte_of_ascii l)
  = forallb xml_char l.
Proof.
  induction l as [| c l IH]; [reflexivity |].
  cbn [map forallb]. rewrite ascii_of_byte_of_ascii, IH. reflexivity.
Qed.

Lemma plain_library_rejects : rejects_forbidden plain_library.
Proof.
  intros e bs Hbad Hx. cbn [plain_library tostring] in Hx.
  injection Hx as <-. cbn [plain_library parseString].
  rewrite forallb_bytes, plain_chars_allowed, Hbad. cbn [negb].
  eexists. reflexivity.
Qed.

Example plain_library_sample :
  exists out,
    generate plain_library "out.reqif" sample_generator
    = (inr ("out.reqif", out), sample_generator).
Proof. eexists. vm_compute. reflexivity. Qed.

(** ** Relations *)




(** ** The clock *)

Lemma scrub_spec_object (now now' : string) (g : ReqIFGenerator)
    (req : Requirement) :
  scrub (spec_object (with_timestamp now g) req)
  = scrub (spec_object (with_timestamp now' g) req).
Proof. reflexivity. Qed.

Lemma scrub_spec_relation (now now' : string) (g : ReqIFGenerator)
    (rel : Relation) :
  scrub (spec_relation (with_timestamp now g) rel)
  = scrub (spec_relation (with_timestamp now' g) rel).
Proof. reflexivity. Qed.

Lemma scrub_spec_hierarchy (now now' : string) (g : ReqIFGenerator)
    (ir : nat * Requirement) :
  scrub (spec_hierarchy (with_timestamp now g) ir)
  = scrub (spec_hierarchy (with_timestamp now' g) ir).
Proof. reflexivity. Qed.

Lemma map_scrub_ext {A} (f f' : A -> Element) (l : list A) :
  (forall x, scrub (f x) = scrub (f' x)) ->
  map scrub (map f l) = map scrub (map f' l).
Proof.
  intros H. induction l as [| x l IH]; simpl; [reflexivity |].
  rewrite H, IH. reflexivity.
Qed.

Lemma scrub_generate_root (now now' : string) (g : ReqIFGenerator) :
  scrub (generate_root (with_timestamp now g))
  = scrub (generate_root (with_timestamp now' g)).
Proof.
  unfold generate_root, _create_spec_objects, _create_spec_relations,
    _create_specifications.
  cbn [scrub node leaf map app spec_objects spec_relations with_timestamp
       title timestamp _create_header].
  rewrite (map_scrub_ext _ _ _ (scrub_spec_object now now' g)).
  rewrite (map_scrub_ext _ _ _ (scrub_spec_relation now now' g)).
  rewrite (map_scrub_ext _ _ _ (scrub_spec_hierarchy now now' g)).
  reflexivity.
Qed.

Lemma stamps_of_specifications (g : ReqIFGenerator) :
  exists spec,
    specification_blocks (generate_root g) = [spec]
    /\ tag spec = "SPECIFICATION"
    /\ last_change spec = Some (timestamp g).
Proof. eexists. repeat split. Qed.

Lemma stamps_of_hierarchy (g : ReqIFGenerator) :
  Forall (fun h => tag h = "SPEC-HIERARCHY"
                   /\ last_change h = Some (timestamp g))
    (hierarchy_entries (generate_root g)).
Proof.
  change (hierarchy_entries (generate_root g))
    with (map (spec_hierarchy g) (enumerate 1 (spec_objects g))).
  apply Forall_forall. intros h Hh.
  apply list_elem_of_fmap in Hh as (ir & -> & _). split; reflexivity.
Qed.

Lemma length_enumerate {A} (l : list A) :
  forall start, length (enumerate start l) = length l.
Proof.
  induction l as [| x l IH]; intros start; [reflexivity |].
  cbn [enumerate length]. rewrite IH. reflexivity.
Qed.



(** ** The text converter *)

Example two_paragraphs :
  build_xhtml_from_text ("Line1" +:+ String LF (String LF "Line2"))
  = Some (xhtml_div [xhtml_p "Line1"; xhtml_p "Line2"]).
Proof. reflexivity. Qed.

Example list_then_paragraph :
  build_xhtml_from_text
    ("- a" +:+ String LF "- b" +:+ String LF (String LF "text"))
  = Some (xhtml_div
            [Elem (ns +:+ "ul") [] None [xhtml_li "a"; xhtml_li "b"];
             xhtml_p "text"]).
Proof. reflexivity. Qed.

Example mixed_line_endings :
  text_lines ("a" +:+ String CR (String LF "b") +:+ String CR "c"
              +:+ String LF "d")
  = ["a"; "b"; "c"; "d"].
Proof. reflexivity. Qed.

(** C8.  On the empty string the converter returns a fragment with exactly
    one child, a paragraph whose text is the empty string. *)
Theorem build_xhtml_from_text_empty :
  exists p,
    build_xhtml_from_text "" = Some (xhtml_div [p])
    /\ is_paragraph p = true /\ text p = Some "" /\ children p = [].
Proof. eexists. repeat split. Qed.

Lemma all_space_replace_crlf (s : string) :
  all_space s = true -> all_space (replace_crlf s) = true.
Proof.
  induction s as [| c s IH]; simpl; [reflexivity |].
  intros H. apply andb_true_iff in H as [Hc Hs].
  destruct (Ascii.eqb c CR).
  - destruct s as [| c' s']; [simpl; rewrite Hc; reflexivity |].
    destruct (Ascii.eqb c' LF); [exact (IH Hs) |].
    simpl. rewrite Hc. exact (IH Hs).
  - simpl. rewrite Hc. exact (IH Hs).
Qed.

Lemma all_space_replace_cr (s : string) :
  all_space s = true -> all_space (replace_cr s) = true.
Proof.
  induction s as [| c s IH]; simpl; [reflexivity |].
  intros H. apply andb_true_iff in H as [Hc Hs]. rewrite (IH Hs).
  destruct (Ascii.eqb c CR); [reflexivity | rewrite Hc; reflexivity].
Qed.

Lemma all_space_split_lf (s : string) :
  all_space s = true -> Forall (fun l => all_space l = true) (split_lf s).
Proof.
  induction s as [| c s IH]; simpl; [repeat constructor |].
  intros H. apply andb_true_iff in H as [Hc Hs]. specialize (IH Hs).
  destruct (Ascii.eqb c LF); [constructor; [reflexivity | exact IH] |].
  destruct (split_lf s) as [| h t]; [repeat constructor; simpl; rewrite Hc; reflexivity |].
  apply Forall_cons in IH as [Hh Ht]. constructor; [| exact Ht].
  simpl. rewrite Hc. exact Hh.
Qed.

Lemma rstrip_all_space (s : string) :
  all_space s = true -> rstrip s = "".
Proof.
  induction s as [| c s IH]; simpl; [reflexivity |].
  intros H. apply andb_true_iff in H as [Hc Hs].
  rewrite (IH Hs), Hc. reflexivity.
Qed.

Lemma conv_loop_blank_lines (lines : list string) :
  Forall (fun l => all_space l = true) lines ->
  conv_loop conv_init lines = Some conv_init.
Proof.
  induction 1 as [| l lines Hl _ IH]; simpl; [reflexivity |].
  unfold conv_step. rewrite (rstrip_all_space l Hl). simpl. exact IH.
Qed.

(** C10.  On a non-empty string of white space and line breaks only, the
    converter returns a fragment without any block node: no paragraph and
    no bullet list (unlike the empty string, for which C8 gives one empty
    paragraph). *)
Theorem build_xhtml_from_text_whitespace (text : string) :
  text <> "" -> all_space text = true ->
  build_xhtml_from_text text = Some (xhtml_div []).
Proof.
  intros Hne Hsp. unfold build_xhtml_from_text.
  destruct text as [| c text]; [congruence |]. cbn [truthy negb].
  rewrite conv_loop_blank_lines; [reflexivity |].
  apply all_space_split_lf, all_space_replace_cr, all_space_replace_crlf, Hsp.
Qed.

Lemma build_xhtml_from_text_whitespace_witness :
  build_xhtml_from_text
    (String " " (String LF (String "009" (String CR (String LF "  ")))))
  = Some (xhtml_div []).
Proof.
  apply build_xhtml_from_text_whitespace; [discriminate | reflexivity].
Defined.

(** *** Bullet lists and runs of marked lines *)

Lemma bullet_lists_app (d1 d2 : list Element) :
  bullet_lists (d1 ++ d2) = (bullet_lists d1 ++ bullet_lists d2).
Proof. unfold bullet_lists. rewrite filter_app, map_app. reflexivity. Qed.

Lemma bullet_lists_flush (d : list Element) (buf : list string) :
  bullet_lists (flush_paragraph d buf) = bullet_lists d.
Proof.
  unfold flush_paragraph. destruct (truthy _); [| reflexivity].
  rewrite bullet_lists_app. simpl. apply app_nil_r.
Qed.

Lemma bullet_lists_snoc_ul (d : list Element) (u : Element) :
  is_bullet_list u = true ->
  bullet_lists (d ++ [u]) = (bullet_lists d ++ [item_texts u]).
Proof.
  intros Hu. rewrite bullet_lists_app. f_equal.
  unfold bullet_lists. rewrite filter_cons_True by exact Hu. reflexivity.
Qed.

Lemma extend_last_snoc {A} (B : list (list A)) (b r : list A) :
  extend_last (B ++ [b]) r = (B ++ [b ++ r]).
Proof.
  induction B as [| b' B IH]; simpl; [reflexivity |].
  rewrite IH. destruct B; reflexivity.
Qed.

Lemma append_child_ul (u li : Element) :
  is_bullet_list u = true ->
  is_bullet_list (append_child u li) = true
  /\ item_texts (append_child u li) = (item_texts u ++ [text li]).
Proof.
  destruct u as [t a x c]. unfold is_bullet_list, item_texts. simpl.
  intros H. split; [exact H |]. apply map_app.
Qed.

Lemma marked_blank (raw : string) : rstrip raw = "" -> marked raw = false.
Proof. unfold marked. intros ->. reflexivity. Qed.

Lemma insert_last (d : list Element) (u v : Element) :
  <[length d := v]> (d ++ [u]) = (d ++ [v]).
Proof.
  rewrite insert_app_r_alt by lia. rewrite Nat.sub_diag. reflexivity.
Qed.

(** One line: the step never raises, keeps [list_open], ends in list mode
    exactly after a marked line, and adds one item for a marked line (to the
    open list, or to a new one) and nothing to the bullet lists otherwise. *)
Lemma conv_step_spec (st : conv_state) (raw : string) :
  list_open st ->
  exists st',
    conv_step st raw = Some st' /\ list_open st'
    /\ list_mode st' = marked raw
    /\ bullet_lists (div st')
       = if marked raw then
           if list_mode st
           then extend_last (bullet_lists (div st)) [item_of raw]
           else (bullet_lists (div st) ++ [[item_of raw]])
         else bullet_lists (div st).
Proof.
  intros Hopen. unfold conv_step.
  destruct (truthy (rstrip raw)) eqn:Hline; cbn [negb].
  2:{ assert (Hr : rstrip raw = "") by (destruct (rstrip raw); [reflexivity | discriminate]).
      rewrite (marked_blank raw Hr).
      destruct (list_mode st) eqn:Hm.
      - eexists. split; [reflexivity |]. repeat split. intros H; discriminate H.
      - destruct (nonempty (buffer st)).
        + eexists. split; [reflexivity |]. cbn [div list_mode].
          rewrite bullet_lists_flush.
          repeat split. intros H; discriminate H.
        + exists st. rewrite Hm. repeat split. exact Hopen. }
  fold (marked raw). destruct (marked raw) eqn:Hmk.
  - destruct (list_mode st) eqn:Hm; cbn [negb].
    + destruct (Hopen Hm) as (pre & u & Hd & Hu & Hi).
      rewrite Hi, Hd. rewrite list_lookup_middle by reflexivity.
      destruct (append_child_ul u (xhtml_li (strip (slice_from 2 (rstrip raw)))) Hu)
        as [Hu' Hit].
      eexists. split; [reflexivity |]. cbn [div list_mode ul_elem buffer].
      rewrite insert_last. split; [| split; [exact Hm |]].
      * intros _. exists pre, (append_child u (xhtml_li (strip (slice_from 2 (rstrip raw))))).
        repeat split; assumption.
      * rewrite !bullet_lists_snoc_ul by assumption. rewrite Hit.
        rewrite extend_last_snoc. reflexivity.
    + set (st0 := if nonempty (buffer st) then _ else st).
      assert (Hb0 : bullet_lists (div st0) = bullet_lists (div st)).
      { subst st0. destruct (nonempty (buffer st)); [apply bullet_lists_flush | reflexivity]. }
      cbn [div list_mode ul_elem buffer].
      rewrite list_lookup_middle by reflexivity.
      eexists. split; [reflexivity |]. cbn [div list_mode ul_elem buffer].
      rewrite insert_last. split; [| split; [reflexivity |]].
      * intros _. eexists _, _. repeat split.
      * rewrite bullet_lists_snoc_ul by reflexivity. rewrite Hb0. reflexivity.
  - eexists. split; [reflexivity |]. cbn [div list_mode ul_elem buffer].
    destruct (list_mode st) eqn:Hm; cbn [div list_mode]; [| rewrite Hm];
      repeat split; intros H; discriminate H.
Qed.

Lemma extend_last_twice {A} (B : list (list A)) (x y : list A) :
  extend_last (extend_last B x) y = extend_last B (x ++ y).
Proof.
  induction B as [| b B IH]; simpl; [reflexivity |].
  destruct B as [| b' B]; simpl; [rewrite app_assoc; reflexivity |].
  simpl in IH. destruct B as [| b'' B]; simpl in *.
  - rewrite <- app_assoc. reflexivity.
  - rewrite IH. reflexivity.
Qed.

Lemma starts_marked_runs (lines : list string) :
  starts_marked lines = true -> exists r rs, marked_runs lines = r :: rs.
Proof.
  destruct lines as [| l rest]; simpl; [discriminate |].
  intros ->. destruct (starts_marked rest); [| eauto].
  destruct (marked_runs rest); eauto.
Qed.

Lemma run_items_marked (l : string) (rest : list string) :
  marked l = true ->
  run_items (l :: rest)
  = if starts_marked rest then continue_with [[item_of l]] (run_items rest)
    else [item_of l] :: run_items rest.
Proof.
  intros Hl. unfold run_items. simpl. rewrite Hl.
  destruct (starts_marked rest) eqn:Hs; [| reflexivity].
  destruct (starts_marked_runs rest Hs) as (r & rs & ->). reflexivity.
Qed.

Lemma run_items_unmarked (l : string) (rest : list string) :
  marked l = false -> run_items (l :: rest) = run_items rest.
Proof. intros Hl. unfold run_items. simpl. rewrite Hl. reflexivity. Qed.

(** The loop: it never raises, and the bullet lists it leaves are those it
    found, followed by the runs of marked lines it read, the first run
    continuing the open list when the loop starts in list mode on a marked
    line. *)
Lemma conv_loop_spec (lines : list string) :
  forall st, list_open st ->
  exists st',
    conv_loop st lines = Some st' /\ list_open st'
    /\ bullet_lists (div st')
       = if list_mode st && starts_marked lines
         then continue_with (bullet_lists (div st)) (run_items lines)
         else bullet_lists (div st) ++ run_items lines.
Proof.
  induction lines as [| l rest IH]; intros st Hopen.
  - exists st. split; [reflexivity |]. split; [exact Hopen |].
    rewrite andb_false_r. symmetry. apply app_nil_r.
  - destruct (conv_step_spec st l Hopen) as (st1 & Hstep & Hopen1 & Hm1 & Hb1).
    destruct (IH st1 Hopen1) as (st' & Hloop & Hopen' & Hb').
    exists st'. simpl. rewrite Hstep. split; [exact Hloop |].
    split; [exact Hopen' |]. rewrite Hb', Hm1, Hb1. clear Hb' Hb1.
    destruct (marked l) eqn:Hl.
    + rewrite (run_items_marked l rest Hl). rewrite andb_true_l, andb_true_r.
      destruct (starts_marked rest) eqn:Hs.
      * destruct (starts_marked_runs rest Hs) as (r & rs & Hr).
        unfold run_items. rewrite Hr. simpl.
        destruct (list_mode st); simpl.
        -- rewrite extend_last_twice. reflexivity.
        -- rewrite extend_last_snoc, <- app_assoc. reflexivity.
      * destruct (list_mode st); simpl; [reflexivity |].
        rewrite <- app_assoc. reflexivity.
    + rewrite (run_items_unmarked l rest Hl). rewrite andb_false_l, andb_false_r.
      reflexivity.
Qed.

Lemma has_bullet_list_iff (e : Element) :
  has_bullet_list e = true <-> bullet_lists (children e) <> [].
Proof.
  unfold has_bullet_list, bullet_lists.
  induction (children e) as [| c cs IH]; simpl.
  - split; [discriminate | congruence].
  - destruct (is_bullet_list c) eqn:Hc.
    + rewrite filter_cons_True by exact Hc. simpl. split; [discriminate | reflexivity].
    + rewrite filter_cons_False by (rewrite Hc; discriminate). exact IH.
Qed.

Lemma marked_runs_nonempty (lines : list string) :
  marked_runs lines <> [] <-> Exists (fun l => marked l = true) lines.
Proof.
  induction lines as [| l rest IH]; simpl.
  - split; [congruence | intros H; inversion H].
  - destruct (marked l) eqn:Hl.
    + split; [intros _; left; exact Hl |]. intros _.
      destruct (starts_marked rest); [destruct (marked_runs rest) |]; discriminate.
    + rewrite IH. split; [intros H; right; exact H |].
      intros H. inversion H; subst; [congruence | assumption].
Qed.

(** A run of marked lines is one run, and an unmarked line separates the
    runs before it from the runs after it. *)
Lemma marked_runs_run (run post : list string) :
  run <> [] -> Forall (fun l => marked l = true) run ->
  starts_marked post = false ->
  marked_runs (run ++ post) = run :: marked_runs post.
Proof.
  intros Hne Hall Hpost. induction Hall as [| l run Hl Hall IH]; [congruence |].
  simpl. rewrite Hl. destruct run as [| l' run'].
  - simpl. rewrite Hpost. reflexivity.
  - rewrite IH by discriminate. simpl.
    apply Forall_cons in Hall as [-> _]. reflexivity.
Qed.

Lemma marked_runs_app_unmarked (xs ys : list string) (u : string) :
  marked u = false ->
  marked_runs (xs ++ u :: ys) = marked_runs xs ++ marked_runs ys.
Proof.
  intros Hu. induction xs as [| x xs IH].
  - simpl. rewrite Hu. reflexivity.
  - cbn [app marked_runs]. rewrite IH. destruct (marked x); [| reflexivity].
    destruct xs as [| x' xs'].
    + simpl. rewrite Hu. reflexivity.
    + cbn [app starts_marked]. destruct (marked x') eqn:Hx'; [| reflexivity].
      destruct (starts_marked_runs (x' :: xs') Hx') as (r & rs & ->).
      reflexivity.
Qed.

Lemma marked_runs_app (pre rest : list string) :
  ends_unmarked pre ->
  marked_runs (pre ++ rest) = marked_runs pre ++ marked_runs rest.
Proof.
  unfold ends_unmarked.
  destruct pre as [| p pre'] using rev_ind; [reflexivity |].
  rewrite last_snoc. intros Hp.
  rewrite <- app_assoc. simpl. rewrite marked_runs_app_unmarked by exact Hp.
  rewrite <- (app_nil_r (pre' ++ [p])), <- app_assoc. simpl.
  rewrite (marked_runs_app_unmarked pre' [] p Hp). simpl.
  rewrite app_nil_r. reflexivity.
Qed.

Lemma build_xhtml_from_text_runs (text : string) :
  exists e,
    build_xhtml_from_text text = Some e
    /\ bullet_lists (children e) = run_items (text_lines text).
Proof.
  unfold build_xhtml_from_text. destruct (truthy text) eqn:Ht; cbn [negb].
  - destruct (conv_loop_spec (text_lines text) conv_init) as (st & -> & _ & Hb).
    { intros H; discriminate H. }
    eexists. split; [reflexivity |]. cbn [children xhtml_div].
    simpl in Hb. rewrite <- Hb.
    destruct (nonempty (buffer st)); [apply bullet_lists_flush | reflexivity].
  - destruct text; [| discriminate Ht]. eexists. split; reflexivity.
Qed.

(** The bullet lists that the loop builds.  The converter returns a fragment
    for every input, and its bullet lists are the maximal runs of
    consecutive lines that the loop takes for marked, in order, with one
    item per line.  The loop looks for the marker in a line whose trailing
    white space is already gone: [marked] is that test, not the test of the
    docstring, which is on the line itself. *)
Lemma build_xhtml_from_text_bullet_lists (text : string) :
  exists e,
    build_xhtml_from_text text = Some e
    /\ bullet_lists (children e) = run_items (text_lines text)
    /\ (has_bullet_list e = true
        <-> Exists (fun l => marked l = true) (text_lines text))
    /\ (forall pre run post,
          text_lines text = pre ++ run ++ post ->
          ends_unmarked pre -> starts_marked post = false ->
          run <> [] -> Forall (fun l => marked l = true) run ->
          bullet_lists (children e)
          = run_items pre ++ [map item_of run] ++ run_items post)
    /\ (forall pre run1 sep run2 post,
          text_lines text = pre ++ run1 ++ sep :: run2 ++ post ->
          ends_unmarked pre -> starts_marked post = false ->
          marked sep = false ->
          run1 <> [] -> Forall (fun l => marked l = true) run1 ->
          run2 <> [] -> Forall (fun l => marked l = true) run2 ->
          bullet_lists (children e)
          = run_items pre ++ [map item_of run1; map item_of run2]
            ++ run_items post).
Proof.
  destruct (build_xhtml_from_text_runs text) as (e & He & Hb).
  exists e. split; [exact He |]. split; [exact Hb |]. split; [| split].
  - rewrite has_bullet_list_iff, Hb, <- marked_runs_nonempty.
    unfold run_items. destruct (marked_runs (text_lines text)); simpl;
      split; congruence.
  - intros pre run post Hl Hpre Hpost Hne Hall. rewrite Hb, Hl.
    unfold run_items.
    rewrite (marked_runs_app pre _ Hpre), (marked_runs_run run post Hne Hall Hpost).
    rewrite map_app. reflexivity.
  - intros pre run1 sep run2 post Hl Hpre Hpost Hsep Hne1 Hall1 Hne2 Hall2.
    rewrite Hb, Hl. unfold run_items.
    rewrite (marked_runs_app pre _ Hpre).
    rewrite (marked_runs_run run1 (sep :: run2 ++ post) Hne1 Hall1 Hsep).
    cbn [marked_runs]. rewrite Hsep.
    rewrite (marked_runs_run run2 post Hne2 Hall2 Hpost).
    rewrite map_app. reflexivity.
Qed.

Lemma build_xhtml_from_text_bullet_lists_witness :
  exists e,
    build_xhtml_from_text
      ("- a" +:+ String LF "- b " +:+ String LF (String LF "- c")) = Some e
    /\ has_bullet_list e = true
    /\ bullet_lists (children e) = [[Some "a"; Some "b"]; [Some "c"]].
Proof.
  destruct (build_xhtml_from_text_bullet_lists
              ("- a" +:+ String LF "- b " +:+ String LF (String LF "- c")))
    as (e & He & _ & Hiff & _ & Htwo).
  exists e. split; [exact He |]. split.
  - apply Hiff. left. reflexivity.
  - apply (Htwo [] ["- a"; "- b "] "" ["- c"] []);
      first [reflexivity | discriminate | exact I | repeat constructor].
Defined.

(** The equivalence between bullet lists and lines that start with "- "
    does not hold of the loop: the input "- " is not blank, its only line
    starts with "- ", and the result has no bullet list. *)
Lemma bare_marker_is_no_list :
  ~ (forall text e,
       non_blank text -> build_xhtml_from_text text = Some e ->
       (has_bullet_list e = true
        <-> Exists (fun l => startswith "- " l = true) (text_lines text))).
Proof.
  intros H.
  destruct (H "- " (xhtml_div [xhtml_p "-"]) eq_refl eq_refl) as [_ Hback].
  discriminate Hback. left. reflexivity.
Qed.

Example bare_marker_result :
  build_xhtml_from_text "- " = Some (xhtml_div [xhtml_p "-"]).
Proof. reflexivity. Qed.

(** C4.  The docstrings say that lines starting with "- " become list items
    and that consecutive such lines become a single list.  The loop strips
    the trailing white space of a line before it looks for the marker, so a
    line that is the marker alone is left as "-" and taken for paragraph
    text.  At the input "- ", whose one line starts with "- ", the result
    is the paragraph "-" and no list.  At the three lines "- a", "- ",
    "- b", which all start with "- ", the result is a list with the item
    "a", the paragraph "-", and a second list with the item "b": the run is
    split in two and its middle line is no item.  A marker followed by
    text, as in "-  x", is an item, as the docstrings say. *)
Theorem bare_marker_line_is_paragraph :
  let one := "- " in
  let three := "- a" +:+ String LF "- " +:+ String LF "- b" in
  let filled := "- a" +:+ String LF "-  x" +:+ String LF "- b" in
  (non_blank one
   /\ Forall (fun l => startswith "- " l = true) (text_lines one)
   /\ build_xhtml_from_text one = Some (xhtml_div [xhtml_p "-"])
   /\ has_bullet_list (xhtml_div [xhtml_p "-"]) = false)
  /\ (text_lines three = ["- a"; "- "; "- b"]
      /\ Forall (fun l => startswith "- " l = true) (text_lines three)
      /\ build_xhtml_from_text three
         = Some (xhtml_div [append_child xhtml_ul (xhtml_li "a");
                            xhtml_p "-";
                            append_child xhtml_ul (xhtml_li "b")]))
  /\ build_xhtml_from_text filled
     = Some (xhtml_div
               [append_child
                  (append_child (append_child xhtml_ul (xhtml_li "a"))
                     (xhtml_li "x"))
                  (xhtml_li "b")]).
Proof.
  cbv zeta. split; [| split].
  - split; [reflexivity |]. split; [repeat constructor |].
    split; reflexivity.
  - split; [reflexivity |]. split; [repeat constructor |]. reflexivity.
  - reflexivity.
Qed.

(** ** Generated identifiers *)

Lemma append_cons (c : ascii) (s t : string) :
  String c s +:+ t = String c (s +:+ t).
Proof. reflexivity. Qed.

Lemma append_empty_r (s : string) : s +:+ "" = s.
Proof.
  induction s as [| c s IH]; [reflexivity |].
  rewrite append_cons, IH. reflexivity.
Qed.

Lemma zfill_str_nat (w n : nat) :
  zfill w (str_nat n) = zeros (w - String.length (str_nat n)) +:+ str_nat n.
Proof.
  unfold zfill, str_nat.
  destruct (Nat.to_uint n) as [| d | d | d | d | d | d | d | d | d | d];
    cbn -[Nat.sub zeros]; try reflexivity.
  symmetry. apply append_empty_r.
Qed.

Lemma uint_of_string_zeros (k : nat) (s : string) :
  Nat.of_uint <$> NilEmpty.uint_of_string (zeros k +:+ s)
  = Nat.of_uint <$> NilEmpty.uint_of_string s.
Proof.
  induction k as [| k IH]; [reflexivity |].
  rewrite <- IH. cbn [zeros]. rewrite append_cons.
  cbn [NilEmpty.uint_of_string].
  destruct (NilEmpty.uint_of_string (zeros k +:+ s)); reflexivity.
Qed.

Lemma sequence_number_auto (short : string) (n : nat) :
  String.length short = 1 ->
  sequence_number ("SO-" +:+ short +:+ "-" +:+ zfill 3 (str_nat n)) = Some n.
Proof.
  destruct short as [| c [| c' short]]; try discriminate. intros _.
  unfold sequence_number.
  change (slice_from 5 ("SO-" +:+ String c "" +:+ "-" +:+ zfill 3 (str_nat n)))
    with (zfill 3 (str_nat n)).
  rewrite zfill_str_nat, uint_of_string_zeros. unfold str_nat.
  rewrite NilEmpty.usu. simpl. rewrite DecimalNat.Unsigned.of_to. reflexivity.
Qed.

Lemma type_map_short (k type_ref short attr_prefix : string) :
  type_map !! k = Some (type_ref, short, attr_prefix) ->
  String.length short = 1.
Proof.
  unfold type_map.
  repeat (rewrite lookup_insert; case_decide;
          [intros [= <- <- <-]; reflexivity |]).
  rewrite lookup_empty. discriminate.
Qed.

Lemma returned_ids_inr (i : string) (rs : list (exn + string)) :
  returned_ids (inr i :: rs) = i :: returned_ids rs.
Proof. reflexivity. Qed.

Lemma returned_ids_inl (e : exn) (rs : list (exn + string)) :
  returned_ids (inl e :: rs) = returned_ids rs.
Proof. reflexivity. Qed.

(** The calls without an explicit identifier return identifiers whose
    numbers count on from the number of objects held before, and each call
    that returns stores its identifier. *)
Lemma run_calls_numbers (calls : list req_args) :
  forall g,
    Forall (fun a => a_identifier a = None) calls ->
    map sequence_number (returned_ids (run_calls calls g).1)
    = map Some (seq (S (length (spec_objects g)))
                  (length (returned_ids (run_calls calls g).1)))
    /\ map req_identifier (spec_objects (run_calls calls g).2)
       = map req_identifier (spec_objects g)
         ++ returned_ids (run_calls calls g).1.
Proof.
  induction calls as [| a calls IH]; intros g Hnone.
  - simpl. split; [reflexivity | symmetry; apply app_nil_r].
  - apply Forall_cons in Hnone as [Ha Hnone]. cbn [run_calls].
    destruct (type_map !! a_req_type a) as [[[tr sh] ap] |] eqn:Hm.
    + destruct (add_requirement_ok a g tr sh ap Hm) as (req & -> & Hreq).
      set (g1 := MkGenerator _ _ _ _).
      destruct (IH g1 Hnone) as [Hn Hs].
      destruct (run_calls calls g1) as [rs g2]. cbn [fst snd] in *.
      assert (Hid : req_identifier req
                    = "SO-" +:+ sh +:+ "-"
                      +:+ zfill 3 (str_nat (length (spec_objects g) + 1))).
      { subst req. simpl. rewrite Ha. reflexivity. }
      assert (Hlen : length (spec_objects g1) = length (spec_objects g) + 1).
      { subst g1. cbn [spec_objects]. rewrite length_app. reflexivity. }
      rewrite returned_ids_inr. split.
      * cbn [map length seq]. rewrite Hn, Hlen, Hid.
        rewrite (sequence_number_auto sh _ (type_map_short _ _ _ _ Hm)).
        rewrite Nat.add_1_r. reflexivity.
      * rewrite Hs. subst g1. cbn [spec_objects]. rewrite map_app.
        rewrite <- app_assoc. reflexivity.
    + assert (Hfail : add_requirement a g
                      = (inl (ValueError ("Invalid req_type: " +:+ a_req_type a)), g)).
      { unfold add_requirement. rewrite Hm. reflexivity. }
      rewrite Hfail. destruct (IH g Hnone) as [Hn Hs].
      destruct (run_calls calls g) as [rs g2]. cbn [fst snd] in *.
      rewrite returned_ids_inl. split; assumption.
Qed.

(** C5.  In any sequence of calls of [add_requirement] without an explicit
    identifier, from any generator, of any mix of kinds (and with calls that
    raise in between), the identifiers returned are pairwise distinct: their
    numbers are the running count of all the objects held, whatever the
    kind.  Each returned identifier is the one stored. *)
Theorem auto_identifiers_distinct (calls : list req_args) (g : ReqIFGenerator) :
  Forall (fun a => a_identifier a = None) calls ->
  let ids := returned_ids (run_calls calls g).1 in
  NoDup ids
  /\ map sequence_number ids
     = map Some (seq (S (length (spec_objects g))) (length ids))
  /\ map req_identifier (spec_objects (run_calls calls g).2)
     = map req_identifier (spec_objects g) ++ ids.
Proof.
  intros Hnone ids. destruct (run_calls_numbers calls g Hnone) as [Hn Hs].
  fold ids in Hn, Hs. split; [| split; assumption].
  apply (NoDup_fmap_1 sequence_number).
  change (NoDup (map sequence_number ids)). rewrite Hn.
  apply (NoDup_fmap_2 Some), NoDup_seq.
Qed.

Lemma auto_identifiers_distinct_witness :
  returned_ids (run_calls sample_calls (init "T" "2024-05-01T10:00:00Z")).1
  = ["SO-F-001"; "SO-I-002"; "SO-F-003"]
  /\ NoDup (returned_ids
              (run_calls sample_calls (init "T" "2024-05-01T10:00:00Z")).1).
Proof.
  split; [reflexivity |].
  apply (auto_identifiers_distinct sample_calls
           (init "T" "2024-05-01T10:00:00Z")).
  repeat constructor.
Defined.

(** * Further properties *)

(** ** [add_relation] *)

Lemma rel_type_map_invalid (k : string) :
  k ∉ valid_relation_kinds -> rel_type_map !! k = None.
Proof.
  intros H. unfold rel_type_map, valid_relation_kinds in *.
  rewrite !lookup_insert_ne by (intros <-; apply H; prove_elem).
  apply lookup_empty.
Qed.

(** X1.  A call of [add_relation] whose kind is none of satisfy, derive,
    refine raises [ValueError] and leaves the generator as it was. *)
Theorem add_relation_invalid_kind (g : ReqIFGenerator)
    (kind source_id target_id : string) (identifier : option string) :
  kind ∉ valid_relation_kinds ->
  add_relation kind source_id target_id identifier g
  = (inl (ValueError ("Invalid relation_type: " +:+ kind)), g).
Proof.
  intros H. unfold add_relation. rewrite (rel_type_map_invalid _ H).
  reflexivity.
Qed.

Lemma add_relation_invalid_kind_witness :
  add_relation "Satisfy" "SO-I-002" "SO-F-001" None sample_generator
  = (inl (ValueError "Invalid relation_type: Satisfy"), sample_generator).
Proof.
  apply (add_relation_invalid_kind sample_generator "Satisfy").
  unfold valid_relation_kinds. rewrite !elem_of_cons, elem_of_nil.
  intros [H | [H | [H | []]]]; discriminate H.
Defined.

Lemma add_relation_ok (g : ReqIFGenerator) (kind source_id target_id : string)
    (identifier : option string) (type_ref : string) :
  rel_type_map !! kind = Some type_ref ->
  add_relation kind source_id target_id identifier g
  = (inr tt,
     MkGenerator (title g) (timestamp g) (spec_objects g)
       (spec_relations g
        ++ [MkRelation
              (default ("SR-" +:+ zfill 3
                          (str_nat (length (spec_relations g) + 1)))
                 identifier)
              type_ref source_id target_id])).
Proof.
  intros H. unfold add_relation. rewrite H. destruct identifier; reflexivity.
Qed.

Lemma rel_type_map_range (k type_ref : string) :
  rel_type_map !! k = Some type_ref -> type_ref ∈ relation_type_ids.
Proof.
  unfold rel_type_map, relation_type_ids.
  repeat (rewrite lookup_insert; case_decide;
          [intros [= <-]; prove_elem |]).
  rewrite lookup_empty. discriminate.
Qed.

Lemma type_map_range (k type_ref short attr_prefix : string) :
  type_map !! k = Some (type_ref, short, attr_prefix) ->
  (type_ref, attr_prefix) ∈ kind_refs.
Proof.
  unfold type_map, kind_refs.
  repeat (rewrite lookup_insert; case_decide;
          [intros [= <- <- <-]; prove_elem |]).
  rewrite lookup_empty. discriminate.
Qed.

(** What one call does to a generator: nothing (it raised), or one more
    requirement, or one more relation; what is added is well formed. *)
Lemma run_call_cases (c : call) (g : ReqIFGenerator) :
  run_call c g = g
  \/ (exists req, requirement_ok req
        /\ run_call c g
           = MkGenerator (title g) (timestamp g) (spec_objects g ++ [req])
               (spec_relations g))
  \/ (exists rel, relation_ok rel
        /\ run_call c g
           = MkGenerator (title g) (timestamp g) (spec_objects g)
               (spec_relations g ++ [rel])).
Proof.
  destruct c as [a | k s t i]; simpl.
  - destruct (type_map !! a_req_type a) as [[[tr sh] ap] |] eqn:Hm.
    + right; left.
      destruct (add_requirement_ok a g tr sh ap Hm) as (req & -> & Hreq).
      exists req. split; [| reflexivity]. subst req.
      split; [exact (type_map_range _ _ _ _ Hm) |].
      split; [apply status_values_range | apply priority_values_range].
    + left. unfold add_requirement. rewrite Hm. reflexivity.
  - destruct (rel_type_map !! k) as [tr |] eqn:Hm.
    + right; right. rewrite (add_relation_ok g k s t i tr Hm).
      eexists. split; [| reflexivity]. exact (rel_type_map_range _ _ Hm).
    + left. unfold add_relation. rewrite Hm. reflexivity.
Qed.

(** X2.  Calls only ever append.  After any sequence of calls of
    [add_requirement] and [add_relation], failed ones included, the title
    and the timestamp are those the generator had, and the objects and
    relations it had are still there, unchanged and in the same places, as a
    prefix of the new lists; each call adds at most one entry. *)
Theorem calls_only_append (cs : list call) (g : ReqIFGenerator) :
  title (run cs g) = title g
  /\ timestamp (run cs g) = timestamp g
  /\ spec_objects g `prefix_of` spec_objects (run cs g)
  /\ spec_relations g `prefix_of` spec_relations (run cs g)
  /\ length (spec_objects (run cs g)) + length (spec_relations (run cs g))
     <= length (spec_objects g) + length (spec_relations g) + length cs.
Proof.
  revert g. induction cs as [| c cs IH]; intros g; simpl.
  - repeat split; try reflexivity. lia.
  - destruct (IH (run_call c g)) as (Ht & Hs & Ho & Hr & Hl).
    rewrite Ht, Hs.
    destruct (run_call_cases c g) as [E | [(req & _ & E) | (rel & _ & E)]];
      rewrite E in *; simpl in *.
    + repeat split; try assumption. lia.
    + repeat split; try assumption.
      * etrans; [apply prefix_app_r; reflexivity | exact Ho].
      * rewrite length_app in Hl. simpl in Hl. lia.
    + repeat split; try assumption.
      * etrans; [apply prefix_app_r; reflexivity | exact Hr].
      * rewrite length_app in Hl. simpl in Hl. lia.
Qed.

(** Everything a reachable generator holds is well formed: kinds, statuses
    and priorities come from the fixed tables. *)
Lemma run_well_formed (cs : list call) (g : ReqIFGenerator) :
  Forall requirement_ok (spec_objects g) ->
  Forall relation_ok (spec_relations g) ->
  Forall requirement_ok (spec_objects (run cs g))
  /\ Forall relation_ok (spec_relations (run cs g)).
Proof.
  revert g. induction cs as [| c cs IH]; intros g Ho Hr; simpl; [auto |].
  apply IH;
    destruct (run_call_cases c g) as [E | [(req & Hreq & E) | (rel & Hrel & E)]];
    rewrite E; simpl; try assumption.
  - apply Forall_app. split; [assumption |]. constructor; [assumption | constructor].
  - apply Forall_app. split; [assumption |]. constructor; [assumption | constructor].
Qed.

Lemma reachable_well_formed (g : ReqIFGenerator) :
  reachable g ->
  Forall requirement_ok (spec_objects g)
  /\ Forall relation_ok (spec_relations g).
Proof.
  intros (t & now & cs & ->). apply run_well_formed; constructor.
Qed.

Example sample_generator_history :
  sample_generator
  = run sample_history
      (init "System Requirements Specification" "2024-05-01T10:00:00Z").
Proof. reflexivity. Qed.

(** ** The encoded document against its own schema *)

Ltac split_elem H :=
  repeat (apply elem_of_cons in H as [H | H]);
  [.. | apply elem_of_nil in H; destruct H].

Lemma object_conforms_ok (g : ReqIFGenerator) (req : Requirement) :
  requirement_ok req ->
  object_conforms (generate_root g) (spec_object g req) = true.
Proof.
  destruct req as [i tr fid nm ch de tc st pr rp ap pu].
  intros (Hk & Hs & Hp). simpl in Hk, Hs, Hp.
  unfold kind_refs in Hk. unfold status_ids in Hs. unfold priority_ids in Hp.
  split_elem Hk; injection Hk as -> ->;
    split_elem Hs; subst st; split_elem Hp; subst pr; vm_compute; reflexivity.
Qed.

Lemma relation_conforms_ok (g : ReqIFGenerator) (rel : Relation) :
  relation_ok rel ->
  relation_conforms (generate_root g) (spec_relation g rel) = true.
Proof.
  destruct rel as [i tr s t]. unfold relation_ok, relation_type_ids. simpl.
  intros H. split_elem H; subst tr; vm_compute; reflexivity.
Qed.

(** X3.  The encoding of a reachable generator conforms to the schema it
    declares itself.  Every object block refers to a declared object type;
    each of its values refers to an attribute definition declared for that
    very type and of the same kind as the value; each enumeration value
    referred to is declared by the data type of its attribute.  Every
    relation block refers to a declared relation type. *)
Theorem encoding_conforms_to_schema (g : ReqIFGenerator) :
  reachable g ->
  forallb (object_conforms (generate_root g)) (object_blocks (generate_root g))
  = true
  /\ forallb (relation_conforms (generate_root g))
       (relation_blocks (generate_root g)) = true.
Proof.
  intros Hg. destruct (reachable_well_formed g Hg) as [Ho Hr].
  rewrite object_blocks_generate, relation_blocks_generate.
  unfold _create_spec_objects, _create_spec_relations. split.
  - apply forallb_forall. intros blk Hin. apply in_map_iff in Hin as (req & <- & Hin).
    apply object_conforms_ok. rewrite Forall_forall in Ho. apply Ho.
    apply list_elem_of_In. exact Hin.
  - apply forallb_forall. intros blk Hin. apply in_map_iff in Hin as (rel & <- & Hin).
    apply relation_conforms_ok. rewrite Forall_forall in Hr. apply Hr.
    apply list_elem_of_In. exact Hin.
Qed.

Lemma encoding_conforms_to_schema_witness :
  forallb (object_conforms (generate_root sample_generator))
    (object_blocks (generate_root sample_generator)) = true
  /\ forallb (relation_conforms (generate_root sample_generator))
       (relation_blocks (generate_root sample_generator)) = true.
Proof.
  apply (encoding_conforms_to_schema sample_generator).
  exists "System Requirements Specification", "2024-05-01T10:00:00Z",
    sample_history.
  reflexivity.
Defined.

(** The check is not empty: a requirement put into a generator by hand with
    an attribute prefix that no type declares does not conform. *)
Example stray_prefix_does_not_conform :
  object_conforms (generate_root sample_generator)
    (spec_object sample_generator
       (MkRequirement "SO-X-001" "T-REQ-FUNCTIONAL" 1 "n" "c" "d" (inr "t")
          "EV-STATUS-DRAFT" "EV-PRIO-LOW" "SYS" "X" "REQ-001"))
  = false.
Proof. reflexivity. Qed.

(** ** Identifiers of relations, explicit identifiers, hierarchy *)

Lemma relation_number_auto (n : nat) :
  relation_number ("SR-" +:+ zfill 3 (str_nat n)) = Some n.
Proof.
  unfold relation_number.
  change (slice_from 3 ("SR-" +:+ zfill 3 (str_nat n)))
    with (zfill 3 (str_nat n)).
  rewrite zfill_str_nat, uint_of_string_zeros. unfold str_nat.
  rewrite NilEmpty.usu. simpl. rewrite DecimalNat.Unsigned.of_to. reflexivity.
Qed.

Lemma run_relation_numbers (cs : list call) :
  forall g,
    Forall is_relation_call_without_identifier cs ->
    exists new,
      run cs g
      = MkGenerator (title g) (timestamp g) (spec_objects g)
          (spec_relations g ++ new)
      /\ map relation_number (map rel_identifier new)
         = map Some (seq (S (length (spec_relations g))) (length new)).
Proof.
  induction cs as [| c cs IH]; intros g Hall.
  - exists []. simpl. rewrite app_nil_r. destruct g; split; reflexivity.
  - apply Forall_cons in Hall as [Hc Hall].
    destruct c as [a | k s t [i |]]; try contradiction. clear Hc.
    cbn [run run_call].
    destruct (rel_type_map !! k) as [tr |] eqn:Hm.
    + rewrite (add_relation_ok g k s t None tr Hm). cbn [snd default].
      set (rel := MkRelation _ _ _ _). set (g1 := MkGenerator _ _ _ _).
      destruct (IH g1 Hall) as (new & -> & Hn).
      exists (rel :: new). subst g1. cbn [title timestamp spec_objects spec_relations] in *.
      split; [rewrite <- app_assoc; reflexivity |].
      cbn [map length seq]. rewrite Hn. rewrite length_app. cbn [length].
      subst rel. cbn [rel_identifier]. rewrite relation_number_auto.
      rewrite !Nat.add_1_r. reflexivity.
    + unfold add_relation. rewrite Hm. cbn [raise snd]. exact (IH g Hall).
Qed.

(** X4.  In any sequence of calls of [add_relation] without an explicit
    identifier, from any generator and with calls that raise in between, the
    relations added carry pairwise distinct identifiers [SR-<n>], numbered
    on from the number of relations held before; the objects are left
    alone. *)
Theorem auto_relation_identifiers_distinct (cs : list call)
    (g : ReqIFGenerator) :
  Forall is_relation_call_without_identifier cs ->
  exists new,
    spec_relations (run cs g) = spec_relations g ++ new
    /\ spec_objects (run cs g) = spec_objects g
    /\ NoDup (map rel_identifier new)
    /\ map relation_number (map rel_identifier new)
       = map Some (seq (S (length (spec_relations g))) (length new)).
Proof.
  intros Hall. destruct (run_relation_numbers cs g Hall) as (new & -> & Hn).
  exists new. repeat split; try assumption.
  apply (NoDup_fmap_1 relation_number).
  change (NoDup (map relation_number (map rel_identifier new))).
  rewrite Hn. apply (NoDup_fmap_2 Some), NoDup_seq.
Qed.

Lemma auto_relation_identifiers_distinct_witness :
  exists new,
    spec_relations
      (run [CallRelation "derive" "a" "b" None;
            CallRelation "contains" "a" "b" None;
            CallRelation "refine" "b" "a" None] sample_generator)
    = spec_relations sample_generator ++ new
    /\ map rel_identifier new = ["SR-002"; "SR-003"]
    /\ NoDup (map rel_identifier new).
Proof.
  destruct (auto_relation_identifiers_distinct
              [CallRelation "derive" "a" "b" None;
               CallRelation "contains" "a" "b" None;
               CallRelation "refine" "b" "a" None] sample_generator)
    as (new & Hnew & _ & Hnd & _).
  { repeat constructor. }
  exists new. split; [exact Hnew |]. split; [| exact Hnd].
  vm_compute in Hnew. injection Hnew as <-. reflexivity.
Defined.

(** X5.  An explicit identifier is taken as it is, without any check against
    the identifiers already stored: the call returns it and stores it, and
    if an object with that identifier was there already, the generator now
    holds two objects with the same identifier. *)
Theorem explicit_identifier_unchecked (a : req_args) (g : ReqIFGenerator)
    (i : string) :
  a_req_type a ∈ valid_kinds -> a_identifier a = Some i ->
  exists g',
    add_requirement a g = (inr i, g')
    /\ map req_identifier (spec_objects g')
       = map req_identifier (spec_objects g) ++ [i]
    /\ (i ∈ map req_identifier (spec_objects g) ->
        ~ NoDup (map req_identifier (spec_objects g'))).
Proof.
  intros Hk Hi. destruct (type_map_valid _ Hk) as (tr & sh & Hm & _).
  destruct (add_requirement_ok a g tr sh sh Hm) as (req & Hrun & Hreq).
  assert (Hid : req_identifier req = i) by (subst req; simpl; rewrite Hi; reflexivity).
  rewrite Hid in Hrun. eexists. split; [exact Hrun |].
  cbn [spec_objects]. rewrite map_app. cbn [map]. rewrite Hid.
  split; [reflexivity |].
  intros Hin Hnd. apply NoDup_app in Hnd as (_ & Hdisj & _).
  apply (Hdisj i Hin). prove_elem.
Qed.

Lemma explicit_identifier_unchecked_witness :
  exists g',
    add_requirement
      (MkReqArgs "performance" 7 "n" "c" "d" (inr "t") None None None
         (Some "SO-F-001") None)
      sample_generator
    = (inr "SO-F-001", g')
    /\ map req_identifier (spec_objects g')
       = ["SO-F-001"; "SO-I-002"; "SO-F-001"].
Proof.
  destruct (explicit_identifier_unchecked
              (MkReqArgs "performance" 7 "n" "c" "d" (inr "t") None None None
                 (Some "SO-F-001") None)
              sample_generator "SO-F-001")
    as (g' & Hrun & Hids & _); [prove_elem | reflexivity |].
  exists g'. split; [exact Hrun | exact Hids].
Defined.

(** X6.  A generated identifier is made from the kind and the number of
    objects only; identifiers already stored are not looked at.  So a
    generated identifier can repeat an explicit one: when a call supplies
    the identifier that the next call will generate, both calls return the
    same identifier. *)
Theorem generated_identifier_can_repeat (a b : req_args) (g : ReqIFGenerator)
    (type_ref short attr_prefix : string) :
  a_req_type a ∈ valid_kinds ->
  type_map !! a_req_type b = Some (type_ref, short, attr_prefix) ->
  a_identifier a
  = Some ("SO-" +:+ short +:+ "-"
          +:+ zfill 3 (str_nat (length (spec_objects g) + 2))) ->
  a_identifier b = None ->
  exists i, returned_ids (run_calls [a; b] g).1 = [i; i].
Proof.
  intros Hka Hmb Hia Hib. destruct (type_map_valid _ Hka) as (tr & sh & Hma & _).
  cbn [run_calls].
  destruct (add_requirement_ok a g tr sh sh Hma) as (ra & -> & Hra).
  set (g1 := MkGenerator _ _ _ _).
  destruct (add_requirement_ok b g1 type_ref short attr_prefix Hmb)
    as (rb & -> & Hrb).
  cbn [fst]. rewrite !returned_ids_inr. exists (req_identifier ra).
  f_equal. f_equal. subst ra rb g1. cbn [req_identifier spec_objects].
  rewrite Hia, Hib. cbn [default]. rewrite length_app. cbn [length].
  replace (length (spec_objects g) + 1 + 1) with (length (spec_objects g) + 2)
    by lia.
  reflexivity.
Qed.

Lemma generated_identifier_can_repeat_witness :
  returned_ids
    (run_calls
       [MkReqArgs "interface" 7 "n" "c" "d" (inr "t") None None None
          (Some "SO-F-002") None;
        sample_args "functional" None None]
       (init "T" "2024-05-01T10:00:00Z")).1
  = ["SO-F-002"; "SO-F-002"].
Proof.
  destruct (generated_identifier_can_repeat
              (MkReqArgs "interface" 7 "n" "c" "d" (inr "t") None None None
                 (Some "SO-F-002") None)
              (sample_args "functional" None None)
              (init "T" "2024-05-01T10:00:00Z")
              "T-REQ-FUNCTIONAL" "F" "F")
    as (i & Hi); [prove_elem | reflexivity | reflexivity | reflexivity |].
  reflexivity.
Defined.

(** *** Blocks and hierarchy *)

Lemma hierarchy_entries_generate (g : ReqIFGenerator) :
  hierarchy_entries (generate_root g)
  = map (spec_hierarchy g) (enumerate 1 (spec_objects g)).
Proof. reflexivity. Qed.

Lemma hierarchy_number_auto (n : nat) :
  hierarchy_number (Some ("SH-" +:+ zfill 3 (str_nat n))) = Some n.
Proof.
  unfold hierarchy_number. cbn [mbind option_bind].
  change (slice_from 3 ("SH-" +:+ zfill 3 (str_nat n)))
    with (zfill 3 (str_nat n)).
  rewrite zfill_str_nat, uint_of_string_zeros. unfold str_nat.
  rewrite NilEmpty.usu. simpl. rewrite DecimalNat.Unsigned.of_to. reflexivity.
Qed.

Lemma hierarchy_of_enumerate (g : ReqIFGenerator) (objs : list Requirement) :
  forall start,
    map hierarchy_object (map (spec_hierarchy g) (enumerate start objs))
    = map (fun r => Some (req_identifier r)) objs
    /\ map (fun h => hierarchy_number (identifier_of h))
         (map (spec_hierarchy g) (enumerate start objs))
       = map Some (seq start (length objs)).
Proof.
  induction objs as [| r objs IH]; intros start; [split; reflexivity |].
  destruct (IH (S start)) as [Ho Hn]. cbn [enumerate map length seq].
  rewrite Ho, Hn. split; [reflexivity |]. f_equal.
  exact (hierarchy_number_auto start).
Qed.

(** X7.  The specification of an encoded document lists every stored
    object exactly once, in insertion order: the hierarchy entries refer to
    the identifiers of the objects, one entry per object and in their order,
    which are also the identifiers of the object blocks of the document, in
    their order; and the entries carry the pairwise distinct identifiers
    [SH-<n>] with [n] counting from 1. *)
Theorem hierarchy_lists_objects_in_order (g : ReqIFGenerator) :
  let hs := hierarchy_entries (generate_root g) in
  map hierarchy_object hs
  = map (fun r => Some (req_identifier r)) (spec_objects g)
  /\ map hierarchy_object hs
     = map identifier_of (object_blocks (generate_root g))
  /\ map (fun h => hierarchy_number (identifier_of h)) hs
     = map Some (seq 1 (length (spec_objects g)))
  /\ NoDup (map identifier_of hs).
Proof.
  intros hs. subst hs. rewrite hierarchy_entries_generate.
  destruct (hierarchy_of_enumerate g (spec_objects g) 1) as [Ho Hn].
  split; [exact Ho |]. split.
  { rewrite Ho, object_blocks_generate. unfold _create_spec_objects.
    rewrite map_map. apply map_ext. intros r. reflexivity. }
  split; [exact Hn |].
  apply (NoDup_fmap_1 hierarchy_number). rewrite <- list_fmap_compose.
  change (NoDup (map (fun h => hierarchy_number (identifier_of h))
                   (map (spec_hierarchy g) (enumerate 1 (spec_objects g))))).
  rewrite Hn. apply (NoDup_fmap_2 Some), NoDup_seq.
Qed.

(** The encoder emits one block per stored object and one per stored
    relation, in insertion order. *)
Lemma blocks_follow_the_model (g : ReqIFGenerator) :
  map (fun b => (tag b, identifier_of b, type_ref_of b))
    (object_blocks (generate_root g))
  = map (fun r => ("SPEC-OBJECT", Some (req_identifier r),
                   Some (req_type_ref r))) (spec_objects g)
  /\ map (fun b => (tag b, identifier_of b, type_ref_of b,
                    endpoint_ref "SOURCE" b, endpoint_ref "TARGET" b))
       (relation_blocks (generate_root g))
     = map (fun r => ("SPEC-RELATION", Some (rel_identifier r),
                      Some (rel_type_ref r), Some (rel_source r),
                      Some (rel_target r))) (spec_relations g).
Proof.
  rewrite object_blocks_generate, relation_blocks_generate.
  unfold _create_spec_objects, _create_spec_relations.
  rewrite !map_map. split; apply map_ext; intros r; reflexivity.
Qed.

(** ** The text converter, block by block *)

Lemma all_space_rstrip (s : string) : all_space (rstrip s) = all_space s.
Proof.
  induction s as [| c s IH]; [reflexivity |]. simpl.
  destruct (rstrip s) as [| c' r] eqn:Hr.
  - rewrite <- IH. simpl. destruct (isspace c) eqn:Hc; simpl; rewrite ?Hc; reflexivity.
  - rewrite <- IH. reflexivity.
Qed.

Lemma all_space_append (a b : string) :
  all_space (a +:+ b) = all_space a && all_space b.
Proof.
  induction a as [| c a IH]; [reflexivity |].
  rewrite append_cons. simpl. rewrite IH. apply andb_assoc.
Qed.

Lemma lstrip_truthy (s : string) :
  all_space s = false -> truthy (lstrip s) = true.
Proof.
  induction s as [| c s IH]; simpl; [discriminate |].
  destruct (isspace c); simpl; [exact IH | reflexivity].
Qed.

Lemma strip_truthy (s : string) :
  all_space s = false -> truthy (strip s) = true.
Proof.
  intros H. apply lstrip_truthy. rewrite all_space_rstrip. exact H.
Qed.

Lemma rstrip_nonblank (raw : string) :
  truthy (rstrip raw) = true -> all_space (rstrip raw) = false.
Proof.
  intros H. rewrite all_space_rstrip.
  destruct (all_space raw) eqn:Hs; [| reflexivity].
  rewrite (rstrip_all_space raw Hs) in H. discriminate H.
Qed.

Lemma join_lf_nonblank (b : string) (bs : list string) :
  all_space b = false -> all_space (join_lf (b :: bs)) = false.
Proof.
  intros Hb. unfold join_lf. simpl. destruct bs as [| b' bs]; [exact Hb |].
  fold (String.append b (String LF "" +:+ String.concat (String LF "") (b' :: bs))).
  rewrite all_space_append, Hb. reflexivity.
Qed.

(** In the converter the guard of [flush_paragraph] never fires: a buffer
    that is not empty holds lines that are not blank. *)
Lemma flush_paragraph_block (d : list Element) (pend : list string) :
  pend <> [] ->
  Forall (fun l => kind_of l = Some false /\ all_space l = false) pend ->
  flush_paragraph d pend = d ++ [block_of (false, pend)].
Proof.
  intros Hne Hall. unfold flush_paragraph.
  destruct pend as [| b bs]; [congruence |].
  apply Forall_cons in Hall as [[_ Hb] _].
  rewrite (strip_truthy _ (join_lf_nonblank b bs Hb)). reflexivity.
Qed.

Lemma segments_blank (l : string) (rest : list string) :
  kind_of l = None -> segments (l :: rest) = segments rest.
Proof. intros H. simpl. rewrite H. reflexivity. Qed.

Lemma segments_run (k : bool) (run rest : list string) :
  run <> [] -> Forall (fun l => kind_of l = Some k) run ->
  starts_with_kind k rest = false ->
  segments (run ++ rest) = (k, run) :: segments rest.
Proof.
  intros Hne Hall Hrest. induction Hall as [| l run Hl Hall IH]; [congruence |].
  cbn [app segments]. rewrite Hl. destruct run as [| l' run'].
  - cbn [app]. rewrite Hrest. reflexivity.
  - rewrite IH by discriminate. cbn [app starts_with_kind].
    apply Forall_cons in Hall as [Hl' _]. rewrite Hl'.
    rewrite bool_decide_eq_true_2 by reflexivity. reflexivity.
Qed.

Lemma starts_with_other_kind (k : bool) (l : string) (rest : list string) :
  kind_of l <> Some k -> starts_with_kind k (l :: rest) = false.
Proof. intros H. simpl. apply bool_decide_eq_false_2. exact H. Qed.

Lemma kind_of_marked (line : string) :
  truthy line = true -> startswith "- " line = true -> kind_of line = Some true.
Proof. intros H1 H2. unfold kind_of. rewrite H1, H2. reflexivity. Qed.

Lemma kind_of_plain (line : string) :
  truthy line = true -> startswith "- " line = false ->
  kind_of line = Some false.
Proof. intros H1 H2. unfold kind_of. rewrite H1, H2. reflexivity. Qed.

Lemma kind_of_blank (line : string) :
  truthy line = false -> kind_of line = None.
Proof. intros H. unfold kind_of. rewrite H. reflexivity. Qed.

Lemma plain_lines_kind (pend : list string) :
  Forall (fun l => kind_of l = Some false /\ all_space l = false) pend ->
  Forall (fun l => kind_of l = Some false) pend.
Proof.
  intros H. eapply Forall_impl; [exact H |]. intros l [Hl _]. exact Hl.
Qed.

(** The blocks of an open run followed by a line of another kind. *)
Lemma segments_close (k : bool) (pend : list string) (line : string)
    (rest : list string) (E : list Element) :
  pend <> [] -> Forall (fun l => kind_of l = Some k) pend ->
  kind_of line <> Some k ->
  E ++ map block_of (segments (pend ++ line :: rest))
  = (E ++ [block_of (k, pend)]) ++ map block_of (segments (line :: rest)).
Proof.
  intros Hne Hall Hline.
  rewrite (segments_run k pend (line :: rest) Hne Hall
             (starts_with_other_kind k line rest Hline)).
  cbn [map]. rewrite <- app_assoc. reflexivity.
Qed.

(** One line, in terms of blocks: the step never raises, and it closes the
    open run or extends it as the kind of the line says. *)
Lemma conv_step_blocks (st : conv_state) (E : list Element)
    (pend : list string) (raw : string) (rest : list string) :
  represents st E pend ->
  exists st1 E1 pend1,
    conv_step st raw = Some st1 /\ represents st1 E1 pend1
    /\ E ++ map block_of (segments (pend ++ rstrip raw :: rest))
       = E1 ++ map block_of (segments (pend1 ++ rest)).
Proof.
  destruct st as [d buf lm ul]. unfold represents, conv_step.
  cbn [div buffer list_mode ul_elem].
  destruct lm.
  - intros (-> & Hne & Hall & -> & ->).
    destruct (truthy (rstrip raw)) eqn:Ht; cbn [negb].
    + destruct (startswith "- " (rstrip raw)) eqn:Hm.
      * cbn [div buffer list_mode ul_elem].
           rewrite list_lookup_middle by reflexivity.
        eexists _, E, (pend ++ [rstrip raw]). split; [reflexivity |].
        cbn [div buffer list_mode ul_elem]. rewrite insert_last. split.
        -- split; [reflexivity |]. split; [destruct pend; discriminate |].
           split; [apply Forall_app; split; [exact Hall |];
                   repeat constructor; apply kind_of_marked; assumption |].
           split; [| reflexivity]. unfold block_of. cbn [fst snd append_child].
           rewrite map_app. reflexivity.
        -- rewrite <- app_assoc. reflexivity.
      * eexists _, (E ++ [block_of (true, pend)]), [rstrip raw].
        split; [reflexivity |]. cbn [div buffer list_mode ul_elem app]. split.
        -- split; [reflexivity |]. split; [| reflexivity].
           repeat constructor; [apply kind_of_plain; assumption |].
           apply rstrip_nonblank; exact Ht.
        -- apply segments_close; [assumption | assumption |].
           rewrite (kind_of_plain _ Ht Hm). discriminate.
    + eexists _, (E ++ [block_of (true, pend)]), []. split; [reflexivity |].
      cbn [div buffer list_mode ul_elem]. split; [repeat split; constructor |].
      rewrite (segments_close true pend (rstrip raw) rest E Hne Hall)
        by (rewrite (kind_of_blank _ Ht); discriminate).
      rewrite (segments_blank _ rest (kind_of_blank _ Ht)). reflexivity.
  - intros (-> & Hall & ->).
    destruct (truthy (rstrip raw)) eqn:Ht; cbn [negb].
    + destruct (startswith "- " (rstrip raw)) eqn:Hm.
      * destruct pend as [| p pend'].
        -- cbn [nonempty div buffer list_mode ul_elem].
           cbn [div buffer list_mode ul_elem].
           rewrite list_lookup_middle by reflexivity.
           eexists _, E, [rstrip raw]. split; [reflexivity |].
           cbn [div buffer list_mode ul_elem]. rewrite insert_last. split.
           ++ split; [reflexivity |]. split; [discriminate |].
              split; [repeat constructor; apply kind_of_marked; assumption |].
              split; reflexivity.
           ++ reflexivity.
        -- cbn [nonempty div buffer list_mode ul_elem].
           rewrite (flush_paragraph_block E (p :: pend')) by (discriminate || exact Hall).
           cbn [div buffer list_mode ul_elem].
           rewrite list_lookup_middle by reflexivity.
           eexists _, (E ++ [block_of (false, p :: pend')]), [rstrip raw].
           split; [reflexivity |].
           cbn [div buffer list_mode ul_elem]. rewrite insert_last. split.
           ++ split; [reflexivity |]. split; [discriminate |].
              split; [repeat constructor; apply kind_of_marked; assumption |].
              split; reflexivity.
           ++ apply segments_close; [discriminate | apply plain_lines_kind; exact Hall |].
              rewrite (kind_of_marked _ Ht Hm). discriminate.
      * eexists _, E, (pend ++ [rstrip raw]). split; [reflexivity |].
        cbn [div buffer list_mode ul_elem]. split.
        -- split; [reflexivity |]. split; [| reflexivity].
           apply Forall_app. split; [exact Hall |].
           repeat constructor; [apply kind_of_plain; assumption |].
           apply rstrip_nonblank; exact Ht.
        -- rewrite <- app_assoc. reflexivity.
    + destruct pend as [| p pend']; cbn [nonempty].
      * eexists _, E, []. split; [reflexivity |].
        cbn [div buffer list_mode ul_elem]. split; [repeat split; constructor |].
        cbn [app]. rewrite (segments_blank _ rest (kind_of_blank _ Ht)).
        reflexivity.
      * rewrite (flush_paragraph_block E (p :: pend')) by (discriminate || exact Hall).
        eexists _, (E ++ [block_of (false, p :: pend')]), [].
        split; [reflexivity |].
        cbn [div buffer list_mode ul_elem]. split; [repeat split; constructor |].
        rewrite (segments_close false (p :: pend') (rstrip raw) rest E)
          by (discriminate || (apply plain_lines_kind; exact Hall)
              || (rewrite (kind_of_blank _ Ht); discriminate)).
        rewrite (segments_blank _ rest (kind_of_blank _ Ht)). reflexivity.
Qed.

Lemma conv_loop_blocks (raws : list string) :
  forall st E pend,
    represents st E pend ->
    exists st',
      conv_loop st raws = Some st'
      /\ conv_finish st' = E ++ map block_of (segments (pend ++ map rstrip raws)).
Proof.
  induction raws as [| raw raws IH]; intros st E pend Hrep.
  - exists st. split; [reflexivity |]. cbn [map]. rewrite app_nil_r.
    destruct st as [d buf lm ul]. unfold represents, conv_finish in *.
    cbn [div buffer list_mode ul_elem] in *. destruct lm.
    + destruct Hrep as (-> & Hne & Hall & -> & _). cbn [nonempty].
      rewrite <- (app_nil_r pend) at 2.
      rewrite (segments_run true pend [] Hne Hall eq_refl). reflexivity.
    + destruct Hrep as (-> & Hall & ->). destruct pend as [| p pend'].
      * cbn [nonempty segments map]. rewrite app_nil_r. reflexivity.
      * cbn [nonempty]. rewrite flush_paragraph_block by (discriminate || exact Hall).
        rewrite <- (app_nil_r (p :: pend')) at 2.
        rewrite (segments_run false (p :: pend') []) by
          (discriminate || (apply plain_lines_kind; exact Hall) || reflexivity).
        reflexivity.
  - destruct (conv_step_blocks st E pend raw (map rstrip raws) Hrep)
      as (st1 & E1 & pend1 & Hstep & Hrep1 & Heq).
    destruct (IH st1 E1 pend1 Hrep1) as (st' & Hloop & Hfin).
    exists st'. cbn [conv_loop map]. rewrite Hstep. split; [exact Hloop |].
    rewrite Hfin, Heq. reflexivity.
Qed.

Lemma build_xhtml_from_text_segments (text : string) :
  text <> "" ->
  build_xhtml_from_text text
  = Some (xhtml_div
            (map block_of (segments (map rstrip (text_lines text))))).
Proof.
  intros Hne. unfold build_xhtml_from_text.
  destruct text as [| c text]; [congruence |]. cbn [truthy negb].
  destruct (conv_loop_blocks (text_lines (String c text)) conv_init [] [])
    as (st & -> & Hfin).
  { repeat split; constructor. }
  unfold conv_finish in Hfin. rewrite Hfin. reflexivity.
Qed.

(** X8.  The whole result of the converter.  For a text that is not empty
    the fragment holds, in the order of the text, one block for each maximal
    run of consecutive lines of one kind, the lines taken after the
    normalization of line endings and without their trailing white space
    and blank lines separating runs: a run of lines that start with "- " is
    one bullet list with one item per line (the line after the marker,
    stripped), any other run is one paragraph (its lines joined by line
    feeds, stripped).  The converter never raises. *)
Theorem build_xhtml_from_text_blocks (text : string) :
  text <> "" ->
  build_xhtml_from_text text
  = Some (xhtml_div
            (map block_of (segments (map rstrip (text_lines text))))).
Proof. exact (build_xhtml_from_text_segments text). Qed.

Lemma build_xhtml_from_text_blocks_witness :
  build_xhtml_from_text
    ("Intro " +:+ String LF "more" +:+ String CR (String LF "- a")
     +:+ String LF "-  b " +:+ String LF " " +:+ String LF "- c")
  = Some (xhtml_div
            [xhtml_p ("Intro" +:+ String LF "more");
             Elem (ns +:+ "ul") [] None [xhtml_li "a"; xhtml_li "b"];
             Elem (ns +:+ "ul") [] None [xhtml_li "c"]]).
Proof.
  rewrite build_xhtml_from_text_blocks by discriminate. reflexivity.
Defined.

(** *** What the blocks look like *)

Lemma rstrip_cons (c : ascii) (s : string) :
  rstrip (String c s)
  = match rstrip s with
    | "" => if isspace c then "" else String c ""
    | r => String c r
    end.
Proof. reflexivity. Qed.

Lemma rstrip_idempotent (s : string) : rstrip (rstrip s) = rstrip s.
Proof.
  induction s as [| c s IH]; [reflexivity |]. rewrite rstrip_cons.
  destruct (rstrip s) as [| c' r] eqn:Hr.
  - destruct (isspace c) eqn:Hc; [reflexivity |].
    rewrite rstrip_cons. cbn [rstrip]. rewrite Hc. reflexivity.
  - rewrite rstrip_cons, IH. reflexivity.
Qed.

Lemma rstrip_fixed_tail (c : ascii) (s : string) :
  rstrip (String c s) = String c s ->
  rstrip s = s /\ (s = "" -> isspace c = false).
Proof.
  rewrite rstrip_cons. destruct (rstrip s) as [| c' r] eqn:Hr.
  - destruct (isspace c); [discriminate |]. intros [= <-].
    split; [exact Hr | reflexivity].
  - intros [= <-]. split; [reflexivity | discriminate].
Qed.

Lemma rstrip_lstrip (s : string) :
  rstrip s = s -> rstrip (lstrip s) = lstrip s.
Proof.
  induction s as [| c s IH]; [reflexivity |]. intros H.
  cbn [lstrip]. destruct (isspace c); [| exact H].
  apply IH. exact (proj1 (rstrip_fixed_tail c s H)).
Qed.

Lemma lstrip_idempotent (s : string) : lstrip (lstrip s) = lstrip s.
Proof.
  induction s as [| c s IH]; [reflexivity |]. simpl.
  destruct (isspace c) eqn:Hc; [exact IH |]. simpl. rewrite Hc. reflexivity.
Qed.

Lemma strip_idempotent (s : string) : strip (strip s) = strip s.
Proof.
  unfold strip. rewrite (rstrip_lstrip (rstrip s) (rstrip_idempotent s)).
  apply lstrip_idempotent.
Qed.

Lemma truthy_nonempty (s : string) : truthy s = true -> s <> "".
Proof. destruct s; [discriminate | discriminate]. Qed.

Lemma clean_paragraph (s : string) :
  all_space s = false -> clean_text (xhtml_p (strip s)).
Proof.
  intros H. exists (strip s). split; [reflexivity |].
  split; [apply truthy_nonempty, strip_truthy, H |].
  split; [apply strip_idempotent |]. split; reflexivity.
Qed.

Lemma clean_item (s : string) :
  all_space s = false -> clean_text (xhtml_li (strip s)).
Proof.
  intros H. exists (strip s). split; [reflexivity |].
  split; [apply truthy_nonempty, strip_truthy, H |].
  split; [apply strip_idempotent |]. split; reflexivity.
Qed.

Lemma fixed_nonblank (l : string) :
  rstrip l = l -> truthy l = true -> all_space l = false.
Proof.
  intros Hf Ht. rewrite <- Hf. apply rstrip_nonblank. rewrite Hf. exact Ht.
Qed.

Lemma startswith_marker (l : string) :
  startswith "- " l = true -> exists s, l = String "-" (String " " s).
Proof.
  unfold startswith. destruct l as [| c1 [| c2 s]]; cbn [String.prefix].
  - discriminate.
  - destruct (ascii_dec "-" c1); discriminate.
  - destruct (ascii_dec "-" c1) as [<- |]; [| discriminate].
    destruct (ascii_dec " " c2) as [<- |]; [| discriminate].
    intros _. eauto.
Qed.

(** After the marker of a list line there is always something: a line
    without trailing white space cannot end with the space of the marker. *)
Lemma marked_item_nonblank (l : string) :
  rstrip l = l -> startswith "- " l = true ->
  all_space (slice_from 2 l) = false.
Proof.
  intros Hf Hm. destruct (startswith_marker l Hm) as (s & ->).
  cbn [slice_from].
  destruct (rstrip_fixed_tail _ _ Hf) as [Hf2 _].
  destruct (all_space s) eqn:Hs; [| reflexivity]. exfalso.
  rewrite rstrip_cons, (rstrip_all_space s Hs) in Hf2. discriminate Hf2.
Qed.

Lemma segments_head (k : bool) (lines : list string) :
  starts_with_kind k lines = true ->
  exists r segs, segments lines = (k, r) :: segs.
Proof.
  destruct lines as [| l rest]; [discriminate |]. cbn [starts_with_kind segments].
  intros H. apply bool_decide_eq_true_1 in H. rewrite H.
  destruct (starts_with_kind k rest); [| eauto].
  destruct (segments rest) as [| [k' r] segs]; eauto.
Qed.

(** Every run is a run: not empty, and all its lines of its kind. *)
Lemma segments_sound (lines : list string) :
  Forall (fun seg => seg.2 <> []
                     /\ Forall (fun l => l ∈ lines /\ kind_of l = Some seg.1)
                          seg.2)
    (segments lines).
Proof.
  induction lines as [| l rest IH]; [constructor |]. cbn [segments].
  assert (IH' : Forall (fun seg => seg.2 <> []
                  /\ Forall (fun x => x ∈ l :: rest /\ kind_of x = Some seg.1)
                       seg.2) (segments rest)).
  { eapply Forall_impl; [exact IH |]. intros seg [Hne Hall]. split; [exact Hne |].
    eapply Forall_impl; [exact Hall |]. intros x [Hx Hk].
    split; [right; exact Hx | exact Hk]. }
  destruct (kind_of l) as [k |] eqn:Hk; [| exact IH'].
  destruct (starts_with_kind k rest) eqn:Hs.
  - destruct (segments_head k rest Hs) as (r & segs & Heq). rewrite Heq in *.
    apply Forall_cons in IH' as [[Hne Hall] Hrest].
    constructor; [| exact Hrest]. split; [discriminate |].
    constructor; [split; [left | exact Hk] | exact Hall].
  - constructor; [| exact IH']. split; [discriminate |].
    repeat constructor. exact Hk.
Qed.

Lemma block_of_well_formed (seg : bool * list string) :
  seg.2 <> [] ->
  Forall (fun l => rstrip l = l /\ kind_of l = Some seg.1) seg.2 ->
  well_formed_block (block_of seg).
Proof.
  destruct seg as [[] run]; cbn [fst snd]; intros Hne Hall.
  - right. unfold block_of. cbn [fst snd children].
    split; [reflexivity |]. split; [destruct run; [congruence | discriminate] |].
    apply Forall_fmap. eapply Forall_impl; [exact Hall |].
    intros l [Hf Hk]. cbn. split; [reflexivity |].
    apply clean_item, marked_item_nonblank; [exact Hf |].
    unfold kind_of in Hk. destruct (truthy l); [| discriminate].
    injection Hk as ->. reflexivity.
  - left. unfold block_of. cbn [fst snd]. split; [reflexivity |].
    destruct run as [| l run]; [congruence |].
    apply Forall_cons in Hall as [[Hf Hk] _].
    apply clean_paragraph, join_lf_nonblank, fixed_nonblank; [exact Hf |].
    unfold kind_of in Hk. destruct (truthy l); [reflexivity | discriminate].
Qed.

(** X9.  For a text that is not empty the converter never makes an empty
    block: every child of the fragment is a paragraph or a bullet list; a
    paragraph has a text that is not empty and carries no white space at
    either end; a bullet list has at least one item, and every item has
    such a text too. *)
Theorem build_xhtml_from_text_well_formed (text : string) :
  text <> "" ->
  exists e,
    build_xhtml_from_text text = Some e
    /\ tag e = ns +:+ "div"
    /\ Forall well_formed_block (children e).
Proof.
  intros Hne. rewrite (build_xhtml_from_text_segments text Hne).
  eexists. split; [reflexivity |]. split; [reflexivity |].
  cbn [children xhtml_div]. apply Forall_fmap.
  eapply Forall_impl; [apply segments_sound |].
  intros seg [Hn Hall]. apply block_of_well_formed; [exact Hn |].
  eapply Forall_impl; [exact Hall |]. intros l [Hin Hk]. split; [| exact Hk].
  apply list_elem_of_fmap in Hin as (raw & -> & _). apply rstrip_idempotent.
Qed.

Lemma build_xhtml_from_text_well_formed_witness :
  exists e,
    build_xhtml_from_text ("- " +:+ String LF " x " +:+ String LF "-  y") = Some e
    /\ Forall well_formed_block (children e).
Proof.
  destruct (build_xhtml_from_text_well_formed
              ("- " +:+ String LF " x " +:+ String LF "-  y"))
    as (e & He & _ & Hwf); [discriminate |].
  exists e. split; assumption.
Defined.

(** *** Lines *)

Lemma split_lf_nonempty (s : string) : split_lf s <> [].
Proof.
  destruct s as [| c s]; simpl; [discriminate |].
  destruct (Ascii.eqb c LF); [discriminate |].
  destruct (split_lf s); discriminate.
Qed.

Lemma join_lf_cons (x y : string) (l : list string) :
  join_lf (x :: y :: l) = x +:+ String LF (join_lf (y :: l)).
Proof. reflexivity. Qed.

Lemma join_split_lf (s : string) : join_lf (split_lf s) = s.
Proof.
  induction s as [| c s IH]; [reflexivity |]. cbn [split_lf].
  destruct (Ascii.eqb c LF) eqn:Hc.
  - apply Ascii.eqb_eq in Hc. subst c.
    destruct (split_lf s) as [| h t] eqn:Hs; [destruct (split_lf_nonempty s Hs) |].
    rewrite join_lf_cons, IH. reflexivity.
  - destruct (split_lf s) as [| h t] eqn:Hs; [destruct (split_lf_nonempty s Hs) |].
    destruct t as [| h' t].
    + unfold join_lf in *. simpl in *. rewrite IH. reflexivity.
    + rewrite join_lf_cons in *. rewrite append_cons, IH. reflexivity.
Qed.

Lemma no_line_break_replace (s : string) :
  forall c, In c (String.list_ascii_of_string (replace_cr (replace_crlf s))) -> c <> CR.
Proof.
  induction s as [| a s IH]; intros c; [intros [] |]. cbn [replace_crlf].
  destruct (Ascii.eqb a CR) eqn:Ha.
  - destruct s as [| b s'].
    + simpl. rewrite Ha. intros [<- | []]. discriminate.
    + destruct (Ascii.eqb b LF); [apply IH |].
      cbn [replace_cr String.list_ascii_of_string]. rewrite Ha.
      intros [<- | H]; [discriminate | exact (IH c H)].
  - cbn [replace_cr String.list_ascii_of_string]. rewrite Ha.
    intros [<- | H]; [| exact (IH c H)].
    intros ->. discriminate Ha.
Qed.

Lemma split_lf_no_line_break (s : string) :
  (forall c, In c (String.list_ascii_of_string s) -> c <> CR) ->
  Forall (fun l => no_line_break l = true) (split_lf s).
Proof.
  induction s as [| c s IH]; intros Hcr; [repeat constructor |].
  assert (IH' : Forall (fun l => no_line_break l = true) (split_lf s)).
  { apply IH. intros x Hx. apply Hcr. right. exact Hx. }
  cbn [split_lf]. destruct (Ascii.eqb c LF) eqn:Hc.
  - constructor; [reflexivity | exact IH'].
  - assert (Hc' : Ascii.eqb c CR = false).
    { apply Ascii.eqb_neq. apply Hcr. left. reflexivity. }
    destruct (split_lf s) as [| h t].
    + repeat constructor. simpl. rewrite Hc, Hc'. reflexivity.
    + apply Forall_cons in IH' as [Hh Ht]. constructor; [| exact Ht].
      simpl. rewrite Hc, Hc', Hh. reflexivity.
Qed.

(** X10.  The lines of a text.  There is always at least one line; no line
    holds a line feed or a carriage return; and the lines joined by line
    feeds are the text with every CR LF pair and every remaining CR turned
    into one line feed, so nothing but line endings is changed by the
    splitting. *)
Theorem text_lines_normalized (text : string) :
  text_lines text <> []
  /\ Forall (fun l => no_line_break l = true) (text_lines text)
  /\ join_lf (text_lines text) = replace_cr (replace_crlf text)
  /\ (no_line_break text = true -> text_lines text = [text]).
Proof.
  unfold text_lines. split; [apply split_lf_nonempty |].
  split; [apply split_lf_no_line_break, no_line_break_replace |].
  split; [apply join_split_lf |].
  induction text as [| c text IH]; [reflexivity |]. cbn [no_line_break].
  intros H. apply andb_true_iff in H as [H Ht].
  apply andb_true_iff in H as [Hlf Hcr].
  apply negb_true_iff in Hlf, Hcr.
  cbn [replace_crlf]. rewrite Hcr. cbn [replace_cr]. rewrite Hcr.
  cbn [split_lf]. rewrite Hlf, (IH Ht). reflexivity.
Qed.

(** ** [_normalize_key] *)

Lemma replace_dunder_length (s : string) :
  forall n, String.length s <= n ->
  String.length (replace_dunder s) <= String.length s
  /\ (contains_dunder s = true ->
      String.length (replace_dunder s) < String.length s).
Proof.
  intros n. revert s. induction n as [| n IH]; intros s Hn.
  - destruct s; [| simpl in Hn; lia]. split; [reflexivity | discriminate].
  - destruct s as [| c s]; [split; [reflexivity | discriminate] |].
    simpl in Hn. cbn [replace_dunder contains_dunder].
    destruct (Ascii.eqb c "_") eqn:Hc; cbn [andb orb].
    + destruct s as [| c' s'].
      * split; [reflexivity | discriminate].
      * destruct (Ascii.eqb c' "_") eqn:Hc'; cbn [orb].
        -- simpl in Hn. destruct (IH s' ltac:(lia)) as [Hle _].
           cbn [String.length]. split; [lia | intros _; lia].
        -- destruct (IH (String c' s') ltac:(lia)) as [Hle Hlt].
           cbn [String.length] in *. split; [lia |].
           intros H. specialize (Hlt H). lia.
    + destruct (IH s ltac:(lia)) as [Hle Hlt]. cbn [String.length].
      split; [lia |]. intros H. specialize (Hlt H). lia.
Qed.

Lemma squeeze_underscore (s : string) :
  squeeze (String "_" s)
  = match s with
    | String c' _ => if Ascii.eqb c' "_" then squeeze s
                     else String "_" (squeeze s)
    | "" => "_"
    end.
Proof. destruct s as [| c' s']; [reflexivity |]. cbn [squeeze]. reflexivity. Qed.

Lemma replace_dunder_head (s : string) :
  match replace_dunder s, s with
  | String a _, String b _ => a = b
  | "", "" => True
  | _, _ => False
  end.
Proof.
  destruct s as [| c s]; [exact I |]. cbn [replace_dunder].
  destruct (Ascii.eqb c "_") eqn:Hc; [| reflexivity].
  destruct s as [| c' s']; [reflexivity |].
  destruct (Ascii.eqb c' "_"); [| reflexivity].
  apply Ascii.eqb_eq in Hc. symmetry. exact Hc.
Qed.

Lemma squeeze_replace_dunder (s : string) :
  forall n, String.length s <= n -> squeeze (replace_dunder s) = squeeze s.
Proof.
  intros n. revert s. induction n as [| n IH]; intros s Hn.
  - destruct s; [reflexivity | simpl in Hn; lia].
  - destruct s as [| c s]; [reflexivity |]. simpl in Hn.
    cbn [replace_dunder]. destruct (Ascii.eqb c "_") eqn:Hc.
    + apply Ascii.eqb_eq in Hc. subst c.
      destruct s as [| c' s']; [reflexivity |].
      destruct (Ascii.eqb c' "_") eqn:Hc'.
      * apply Ascii.eqb_eq in Hc'. subst c'. simpl in Hn.
        rewrite (squeeze_underscore (String "_" s')). cbn [Ascii.eqb].
        change (Ascii.eqb "_" "_") with true. cbv iota.
        rewrite !squeeze_underscore.
        pose proof (replace_dunder_head s') as Hh.
        rewrite <- (IH s' ltac:(lia)).
        destruct (replace_dunder s') as [| a r], s' as [| b t];
          try contradiction; [reflexivity |]. subst a. reflexivity.
      * rewrite (squeeze_underscore (String c' s')), Hc'.
        rewrite squeeze_underscore.
        pose proof (replace_dunder_head (String c' s')) as Hh.
        rewrite <- (IH (String c' s') ltac:(lia)).
        destruct (replace_dunder (String c' s')) as [| a r];
          [contradiction |]. subst a. rewrite Hc'. reflexivity.
    + cbn [squeeze]. rewrite Hc. cbn [andb]. rewrite (IH s ltac:(lia)).
      reflexivity.
Qed.

Lemma squeeze_fixed (s : string) :
  contains_dunder s = false -> squeeze s = s.
Proof.
  induction s as [| c s IH]; [reflexivity |]. cbn [contains_dunder squeeze].
  intros H. apply orb_false_iff in H as [H1 H2]. rewrite H1, (IH H2).
  reflexivity.
Qed.

(** The loop ends before its bound: every round that runs makes the string
    shorter.  What it returns is the string with its runs of underscores
    made one underscore each. *)
Lemma collapse_loop_squeeze (fuel : nat) :
  forall s, String.length s < fuel -> collapse_loop fuel s = Some (squeeze s).
Proof.
  induction fuel as [| fuel IH]; intros s Hlen; [lia |]. cbn [collapse_loop].
  destruct (contains_dunder s) eqn:Hd.
  - destruct (replace_dunder_length s _ (le_n _)) as [_ Hlt].
    rewrite IH by (specialize (Hlt Hd); lia).
    rewrite (squeeze_replace_dunder s _ (le_n _)). reflexivity.
  - rewrite (squeeze_fixed s Hd). reflexivity.
Qed.

Lemma normalize_prepare_map (s : string) :
  normalize_prepare s = map_chars prepare_char (strip s).
Proof.
  unfold normalize_prepare. induction (strip s) as [| c x IH]; [reflexivity |].
  cbn [lower replace_char map_chars]. rewrite IH. reflexivity.
Qed.

Lemma prepare_char_facts (c : ascii) :
  key_char (prepare_char c) = true
  /\ (isspace c = false -> isspace (prepare_char c) = false)
  /\ (key_char c = true -> prepare_char c = c).
Proof.
  destruct c as [[] [] [] [] [] [] [] []]; vm_compute;
    repeat split; congruence.
Qed.

Lemma map_chars_key (x : string) :
  all_chars key_char (map_chars prepare_char x) = true.
Proof.
  induction x as [| c x IH]; [reflexivity |]. cbn [map_chars all_chars].
  rewrite (proj1 (prepare_char_facts c)), IH. reflexivity.
Qed.

Lemma map_chars_fixed (x : string) :
  all_chars key_char x = true -> map_chars prepare_char x = x.
Proof.
  induction x as [| c x IH]; [reflexivity |]. cbn [map_chars all_chars].
  intros H. apply andb_true_iff in H as [Hc Hx].
  rewrite (proj2 (proj2 (prepare_char_facts c)) Hc), (IH Hx). reflexivity.
Qed.

Lemma map_chars_rstrip (x : string) :
  rstrip x = x -> rstrip (map_chars prepare_char x) = map_chars prepare_char x.
Proof.
  induction x as [| c x IH]; [reflexivity |]. intros H.
  destruct (rstrip_fixed_tail c x H) as [Hx Hc]. cbn [map_chars].
  rewrite rstrip_cons, (IH Hx). destruct x as [| c' x']; [| reflexivity].
  cbn [map_chars].
  rewrite (proj1 (proj2 (prepare_char_facts c)) (Hc eq_refl)). reflexivity.
Qed.

Lemma lstrip_length (s : string) : String.length (lstrip s) <= String.length s.
Proof.
  induction s as [| c s IH]; [reflexivity |]. cbn [lstrip].
  destruct (isspace c); cbn [String.length]; lia.
Qed.

Lemma lstrip_fixed_head (c : ascii) (s : string) :
  lstrip (String c s) = String c s <-> isspace c = false.
Proof.
  cbn [lstrip]. destruct (isspace c); split; try reflexivity; try discriminate.
  intros H. pose proof (lstrip_length s) as Hl. rewrite H in Hl.
  cbn [String.length] in Hl. lia.
Qed.

Lemma map_chars_lstrip (x : string) :
  lstrip x = x -> lstrip (map_chars prepare_char x) = map_chars prepare_char x.
Proof.
  destruct x as [| c x]; [reflexivity |]. intros H. cbn [map_chars].
  apply lstrip_fixed_head. apply lstrip_fixed_head in H.
  exact (proj1 (proj2 (prepare_char_facts c)) H).
Qed.

Lemma squeeze_all_chars (P : ascii -> bool) (s : string) :
  all_chars P s = true -> all_chars P (squeeze s) = true.
Proof.
  induction s as [| c s IH]; [reflexivity |]. cbn [all_chars squeeze].
  intros H. apply andb_true_iff in H as [Hc Hs].
  destruct (Ascii.eqb c "_" && _); [exact (IH Hs) |].
  cbn [all_chars]. rewrite Hc, (IH Hs). reflexivity.
Qed.

Lemma squeeze_head (s : string) :
  match squeeze s, s with
  | String a _, String b _ => a = b
  | "", "" => True
  | _, _ => False
  end.
Proof.
  induction s as [| c s IH]; [exact I |]. cbn [squeeze].
  destruct (Ascii.eqb c "_") eqn:Hc; cbn [andb]; [| reflexivity].
  destruct s as [| c' s']; [reflexivity |].
  destruct (Ascii.eqb c' "_") eqn:Hc'; [| reflexivity].
  apply Ascii.eqb_eq in Hc, Hc'. subst c c'.
  destruct (squeeze (String "_" s')) as [| a r]; [contradiction | exact IH].
Qed.

Lemma squeeze_no_dunder (s : string) : contains_dunder (squeeze s) = false.
Proof.
  induction s as [| c s IH]; [reflexivity |]. cbn [squeeze].
  destruct (Ascii.eqb c "_" && _) eqn:Hd; [exact IH |].
  cbn [contains_dunder]. rewrite IH, orb_false_r.
  pose proof (squeeze_head s) as Hh.
  destruct (squeeze s) as [| a r]; [apply andb_false_r |].
  destruct s as [| b t]; [contradiction |]. subst a. exact Hd.
Qed.

Lemma squeeze_lstrip (s : string) :
  lstrip s = s -> lstrip (squeeze s) = squeeze s.
Proof.
  destruct s as [| c s]; [reflexivity |]. intros H.
  apply lstrip_fixed_head in H. pose proof (squeeze_head (String c s)) as Hh.
  destruct (squeeze (String c s)) as [| a r]; [reflexivity |]. subst a.
  apply lstrip_fixed_head. exact H.
Qed.

Lemma squeeze_empty (s : string) : squeeze s = "" -> s = "".
Proof.
  intros H. pose proof (squeeze_head s) as Hh. rewrite H in Hh.
  destruct s; [reflexivity | contradiction].
Qed.

Lemma squeeze_rstrip (s : string) :
  rstrip s = s -> rstrip (squeeze s) = squeeze s.
Proof.
  induction s as [| c s IH]; [reflexivity |]. intros H.
  destruct (rstrip_fixed_tail c s H) as [Hs Hc]. cbn [squeeze].
  destruct (Ascii.eqb c "_" && _); [exact (IH Hs) |].
  rewrite rstrip_cons, (IH Hs).
  destruct (squeeze s) as [| a r] eqn:Hq; [| reflexivity].
  rewrite (Hc (squeeze_empty s Hq)). reflexivity.
Qed.

Lemma strip_fixed (s : string) :
  rstrip s = s -> lstrip s = s -> strip s = s.
Proof. intros Hr Hl. unfold strip. rewrite Hr. exact Hl. Qed.

Lemma strip_is_fixed (s : string) :
  rstrip (strip s) = strip s /\ lstrip (strip s) = strip s.
Proof.
  unfold strip. split.
  - apply rstrip_lstrip, rstrip_idempotent.
  - apply lstrip_idempotent.
Qed.

Lemma normalize_key_shape (s : string) :
  exists r,
    _normalize_key s = Some r
    /\ (forall fuel, String.length (normalize_prepare s) < fuel ->
        collapse_loop fuel (normalize_prepare s) = Some r)
    /\ r = squeeze (map_chars prepare_char (strip s))
    /\ all_chars key_char r = true
    /\ contains_dunder r = false
    /\ strip r = r.
Proof.
  exists (squeeze (normalize_prepare s)). unfold _normalize_key.
  split; [apply collapse_loop_squeeze; lia |].
  split; [intros fuel Hf; apply collapse_loop_squeeze; exact Hf |].
  rewrite normalize_prepare_map. split; [reflexivity |].
  split; [apply squeeze_all_chars, map_chars_key |].
  split; [apply squeeze_no_dunder |].
  destruct (strip_is_fixed s) as [Hr Hl].
  apply strip_fixed.
  - apply squeeze_rstrip, map_chars_rstrip, Hr.
  - apply squeeze_lstrip, map_chars_lstrip, Hl.
Qed.

Lemma lower_fixed (r : string) : all_chars key_char r = true -> lower r = r.
Proof.
  induction r as [| c r IH]; [reflexivity |].
  cbn [all_chars lower]. intros H.
  apply andb_true_iff in H as [Hc Hr]. unfold key_char in Hc.
  apply andb_true_iff in Hc as [_ Hc]. apply Ascii.eqb_eq in Hc.
  rewrite Hc, (IH Hr). reflexivity.
Qed.

Lemma lower_changes (name : string) :
  lower name <> name -> all_chars key_char name = false.
Proof.
  intros H. destruct (all_chars key_char name) eqn:Hk; [| reflexivity].
  destruct H. apply lower_fixed, Hk.
Qed.

(** X11.  [_normalize_key] always returns: its loop ends within the bound,
    and any larger bound gives the same result.  The result is the input
    stripped and lowered by [lower], with every space, hyphen and tab made
    an underscore and every run of underscores made a single one.  It holds
    no space, hyphen or tab and no double underscore, [lower] leaves it as
    it is, and it has no white space at either end. *)
Theorem normalize_key_result (s : string) :
  exists r,
    _normalize_key s = Some r
    /\ (forall fuel, String.length (normalize_prepare s) < fuel ->
        collapse_loop fuel (normalize_prepare s) = Some r)
    /\ r = squeeze (map_chars prepare_char (strip s))
    /\ all_chars key_char r = true
    /\ lower r = r
    /\ contains_dunder r = false
    /\ strip r = r.
Proof.
  destruct (normalize_key_shape s) as (r & Hr & Hf & Hq & Hk & Hd & Hs).
  exists r. repeat split; try assumption. apply lower_fixed, Hk.
Qed.

(** X12.  [_normalize_key] is idempotent: a key it has returned is returned
    unchanged when normalized again. *)
Theorem normalize_key_idempotent (s : string) :
  exists r, _normalize_key s = Some r /\ _normalize_key r = Some r.
Proof.
  destruct (normalize_key_shape s) as (r & Hr & _ & _ & Hk & Hd & Hs).
  exists r. split; [exact Hr |]. unfold _normalize_key.
  assert (Hp : normalize_prepare r = r).
  { rewrite normalize_prepare_map, Hs. apply map_chars_fixed, Hk. }
  rewrite Hp. rewrite collapse_loop_squeeze by lia.
  rewrite (squeeze_fixed r Hd). reflexivity.
Qed.

Example normalize_key_examples :
  _normalize_key " IE PUID " = Some "ie_puid"
  /\ _normalize_key "Source - IEPUID" = Some "source_iepuid"
  /\ _normalize_key "a -__- b" = Some "a_b"
  /\ _normalize_key "__" = Some "_".
Proof. repeat split. Qed.

(** ** Normalized records *)

Lemma normalize_record_lookup {V} (items : list (string * V)) :
  forall nrec0 : gmap string V,
  exists nrec,
    normalize_record items nrec0 = Some nrec
    /\ forall name,
         nrec !! name
         = match last_named name items with
           | Some v => Some v
           | None => nrec0 !! name
           end.
Proof.
  induction items as [| [k v] items IH]; intros nrec0.
  - exists nrec0. split; reflexivity.
  - cbn [normalize_record last_named].
    destruct (normalize_key_shape k) as (k' & Hk & _).
    rewrite Hk. destruct (IH (<[k' := v]> nrec0)) as (nrec & Hn & Hl).
    exists nrec. split; [exact Hn |]. intros name. rewrite Hl.
    destruct (last_named name items) as [w |]; [reflexivity |].
    rewrite lookup_insert. case_decide as Hc.
    + subst k'. rewrite bool_decide_eq_true_2 by reflexivity. reflexivity.
    + rewrite bool_decide_eq_false_2 by congruence. reflexivity.
Qed.

Lemma last_named_key {V} (name : string) (items : list (string * V)) (v : V) :
  last_named name items = Some v ->
  all_chars key_char name = true /\ _normalize_key name = Some name.
Proof.
  revert v. induction items as [| [k w] items IH]; intros v; [discriminate |].
  cbn [last_named]. destruct (last_named name items) as [u |].
  - intros _. apply (IH u). reflexivity.
  - case_bool_decide as Hk; [| discriminate]. intros _.
    destruct (normalize_key_shape k) as (r & Hr & _ & _ & Hc & Hd & Hs).
    rewrite Hk in Hr. injection Hr as <-. split; [exact Hc |].
    unfold _normalize_key.
    assert (Hp : normalize_prepare name = name).
    { rewrite normalize_prepare_map, Hs. apply map_chars_fixed, Hc. }
    rewrite Hp, collapse_loop_squeeze by lia.
    rewrite (squeeze_fixed name Hd). reflexivity.
Qed.

(** X13.  [_normalize_records], one record: the result is always built; its
    value under a name is the value of the last column whose header
    normalizes to that name (a later column overwrites an earlier one with
    the same normalized header), and there is no value under a name that no
    header normalizes to.  Every key of the result is a normalized key, so a
    name with a space, a hyphen or a tab, or one that [lower] changes, is
    never a key: in particular the lookup of "RelationType" that [main]
    makes for its warning finds nothing, since [lower] changes the R and
    the T. *)
Theorem normalize_record_result {V} (items : list (string * V)) :
  exists nrec,
    normalize_record items ∅ = Some nrec
    /\ (forall name, nrec !! name = last_named name items)
    /\ (forall name, is_Some (nrec !! name) ->
        _normalize_key name = Some name)
    /\ (forall name, all_chars key_char name = false -> nrec !! name = None)
    /\ (forall name, lower name <> name -> nrec !! name = None)
    /\ lower "RelationType" <> "RelationType"
    /\ nrec !! "RelationType" = None.
Proof.
  destruct (normalize_record_lookup items ∅) as (nrec & Hn & Hl).
  assert (Hl' : forall name, nrec !! name = last_named name items).
  { intros name. rewrite Hl, lookup_empty.
    destruct (last_named name items); reflexivity. }
  assert (Hk : forall name, all_chars key_char name = false ->
                            nrec !! name = None).
  { intros name Hc. rewrite Hl'.
    destruct (last_named name items) as [v |] eqn:Hv; [| reflexivity].
    destruct (last_named_key name items v Hv) as [Hc' _]. congruence. }
  exists nrec. split; [exact Hn |]. split; [exact Hl' |].
  split.
  { intros name [v Hv]. rewrite Hl' in Hv.
    exact (proj2 (last_named_key name items v Hv)). }
  split; [exact Hk |].
  split; [intros name Hc; apply Hk, lower_changes, Hc |].
  split; [discriminate | apply Hk; reflexivity].
Qed.

Example normalize_record_example :
  normalize_record
    [("IE PUID", 1); ("Relation Type", 2); ("ie-puid", 3); ("Name", 4)] ∅
  = Some (<["ie_puid" := 3]> (<["relation_type" := 2]> (<["name" := 4]> ∅))).
Proof. vm_compute. reflexivity. Qed.

(** ** The row mapper *)

Lemma TYPE_MAP_range (raw k : string) :
  TYPE_MAP !! raw = Some k -> k ∈ valid_kinds.
Proof.
  unfold TYPE_MAP. intros H. apply elem_of_list_to_map_2 in H.
  unfold valid_kinds.
  repeat (apply elem_of_cons in H as [H | H]; [injection H as _ ->; prove_elem |]).
  apply elem_of_nil in H. destruct H.
Qed.

Lemma classify_valid (raw k : string) :
  classify raw = Some k -> k ∈ valid_kinds.
Proof.
  unfold classify. destruct (TYPE_MAP !! raw) as [t |] eqn:Ht.
  - intros [= <-]. exact (TYPE_MAP_range raw t Ht).
  - unfold valid_kinds.
    destruct (contains "functional" raw); [intros [= <-]; prove_elem |].
    destruct (contains "interface" raw); [intros [= <-]; prove_elem |].
    destruct (contains "performance" raw || contains "non-functional" raw);
      [intros [= <-]; prove_elem | discriminate].
Qed.

Lemma contains_cons (p : string) (c : ascii) (s : string) :
  contains p s = true -> contains p (String c s) = true.
Proof. intros H. cbn [contains]. rewrite H. apply orb_true_r. Qed.

Lemma contains_slice (p : string) (n : nat) :
  forall s, contains p (slice_from n s) = true -> contains p s = true.
Proof.
  induction n as [| n IH]; intros s; [destruct s; exact id |].
  destruct s as [| c s]; [exact id |]. cbn [slice_from]. intros H.
  apply contains_cons, IH, H.
Qed.

Lemma contains_startswith (p s : string) :
  startswith p s = true -> contains p s = true.
Proof. intros H. destruct s; cbn [contains]; rewrite H; reflexivity. Qed.

Lemma startswith_non_functional (s : string) :
  startswith "non-functional" s = true ->
  startswith "functional" (slice_from 4 s) = true.
Proof.
  unfold startswith.
  destruct s as [| c1 [| c2 [| c3 [| c4 s]]]]; cbn [String.prefix];
    try discriminate;
    repeat (match goal with
            | |- context [ascii_dec ?a ?b] => destruct (ascii_dec a b)
            end; try discriminate).
  cbn [slice_from]. exact id.
Qed.

Lemma contains_non_functional (s : string) :
  contains "non-functional" s = true -> contains "functional" s = true.
Proof.
  induction s as [| c s IH]; [discriminate |].
  intros H. cbn [contains] in H. apply orb_true_iff in H as [H | H].
  - apply (contains_slice "functional" 4).
    apply contains_startswith, startswith_non_functional, H.
  - apply contains_cons, IH, H.
Qed.

(** X14.  The classification of a row.  A kind, when one is found, is one of
    functional, interface, performance, so [add_requirement] is never called
    with a kind it rejects.  A type that is no key of the table and holds
    "non-functional" is classified functional, not performance: it holds
    "functional" too, and that is looked for first; the test for
    "non-functional" in the last alternative never decides. *)
Theorem classify_result (raw_type : string) :
  (forall k, classify raw_type = Some k -> k ∈ valid_kinds)
  /\ (TYPE_MAP !! raw_type = None ->
      contains "non-functional" raw_type = true ->
      classify raw_type = Some "functional")
  /\ (classify raw_type = Some "performance" ->
      TYPE_MAP !! raw_type = Some "performance"
      \/ contains "performance" raw_type = true).
Proof.
  split; [intros k; apply classify_valid |]. split.
  - intros Ht Hc. unfold classify.
    rewrite Ht, (contains_non_functional raw_type Hc). reflexivity.
  - unfold classify. destruct (TYPE_MAP !! raw_type) as [t |] eqn:Ht.
    + intros [= ->]. left. reflexivity.
    + destruct (contains "functional" raw_type) eqn:Hf; [discriminate |].
      destruct (contains "interface" raw_type); [discriminate |].
      destruct (contains "performance" raw_type); [intros _; right; reflexivity |].
      destruct (contains "non-functional" raw_type) eqn:Hn; [| discriminate].
      rewrite (contains_non_functional raw_type Hn) in Hf. discriminate Hf.
Qed.

Example classify_examples :
  classify "non-functional" = Some "performance"
  /\ classify "non-functional requirement" = Some "functional"
  /\ classify "a performance goal" = Some "performance"
  /\ classify "fr" = Some "functional"
  /\ classify "safety" = None.
Proof. vm_compute. repeat split. Qed.

Lemma or_str_nonempty (a b : string) : b <> "" -> or_str a b <> "".
Proof.
  unfold or_str. destruct a; simpl; [exact id | discriminate].
Qed.

Lemma default_prefix_valid (k : string) :
  k ∈ valid_kinds -> is_Some (default_prefix !! k).
Proof.
  unfold valid_kinds. intros H. split_elem H; subst k; eexists; reflexivity.
Qed.

Lemma build_xhtml_from_text_total (text : string) :
  is_Some (build_xhtml_from_text text).
Proof.
  destruct (build_xhtml_from_text_runs text) as (e & -> & _). eexists. reflexivity.
Qed.

From Stdlib Require Sorted.

Section RowMapperFacts.

Variable py_int : string -> option Z.

Lemma process_req_row_step (row : gmap string cell) (st : mapper_state) :
  exists st',
    process_req_row py_int row st = Some st'
    /\ spec_relations (generator st') = spec_relations (generator st)
    /\ added_rels st' = added_rels st
    /\ title (generator st') = title (generator st)
    /\ timestamp (generator st') = timestamp (generator st)
    /\ match classify (lower (text_of (get2 row "type" "req_type"))) with
       | None =>
           generator st' = generator st /\ id_map st' = id_map st
           /\ added_reqs st' = added_reqs st
           /\ length (warnings st') = S (length (warnings st))
       | Some k =>
           exists req e,
             k ∈ valid_kinds
             /\ spec_objects (generator st')
                = spec_objects (generator st) ++ [req]
             /\ warnings st' = warnings st
             /\ added_reqs st' = added_reqs st + 1
             /\ requirement_ok req
             /\ req_name req
                = or_str (text_of (get1 row "name"))
                    (or_str (text_of (get2 row "ie_puid" "iepuid")) "Untitled")
             /\ req_name req <> ""
             /\ req_text_content req = inl e
             /\ (exists src, build_xhtml_from_text src = Some e)
             /\ (text_or_empty (get1 row "status") = "" ->
                 req_status req = "EV-STATUS-APPROVED")
             /\ (text_or_empty (get1 row "priority") = "" ->
                 req_priority req = "EV-PRIO-MEDIUM")
             /\ (let p := text_of (get2 row "ie_puid" "iepuid") in
                 if truthy p
                 then id_map st' = <[p := req_identifier req]> (id_map st)
                      /\ req_ie_puid req = p
                 else id_map st' = id_map st)
       end.
Proof.
  unfold process_req_row.
  destruct (classify (lower (text_of (get2 row "type" "req_type"))))
    as [k |] eqn:Hc.
  - pose proof (classify_valid _ _ Hc) as Hk.
    assert (Hp : exists rp,
               (if truthy (text_or_empty (get2 row "reqprefix" "req_prefix"))
                then Some (text_or_empty (get2 row "reqprefix" "req_prefix"))
                else default_prefix !! k) = Some rp).
    { destruct (truthy _); [eauto |]. destruct (default_prefix_valid k Hk) as [rp ->].
      eauto. }
    destruct Hp as (rp & ->).
    match goal with
    | |- context [build_xhtml_from_text ?t] =>
        destruct (build_xhtml_from_text_total t) as [e He]; rewrite He
    end.
    destruct (type_map_valid _ Hk) as (tr & sh & Hm & _).
    match goal with
    | |- context [add_requirement ?a ?g] =>
        destruct (add_requirement_ok a g tr sh sh Hm) as (req & -> & Hreq)
    end.
    cbn [a_identifier a_ie_puid a_status a_priority a_req_prefix a_req_type
         a_foreign_id a_name a_chapter a_description a_text_content default]
      in Hreq.
    eexists. split; [reflexivity |].
    cbn [generator id_map warnings added_reqs added_rels spec_objects
         spec_relations].
    split; [reflexivity |]. split; [reflexivity |].
    split; [reflexivity |]. split; [reflexivity |].
    exists req, e. split; [exact Hk |]. split; [reflexivity |].
    split; [reflexivity |]. split; [reflexivity |]. subst req.
    cbn [req_name req_text_content req_status req_priority req_ie_puid
         req_identifier].
    split.
    { split; [exact (type_map_range _ _ _ _ Hm) |].
      split; [apply status_values_range | apply priority_values_range]. }
    split; [reflexivity |].
    split; [apply or_str_nonempty, or_str_nonempty; discriminate |].
    split; [reflexivity |]. split; [eexists; exact He |].
    split; [intros ->; reflexivity |]. split; [intros ->; reflexivity |].
    destruct (truthy (text_of (get2 row "ie_puid" "iepuid"))); [split |]; reflexivity.
  - eexists. split; [reflexivity |].
    cbn [generator id_map warnings added_reqs added_rels].
    repeat split. rewrite length_app. cbn [length]. lia.
Qed.

(** X15.  A requirement row never makes [main] fail.  A row whose type is
    not classified changes nothing but the warnings, which get one more.  A
    row whose type is classified adds exactly one object, of a valid kind,
    and no warning; the object has a name that is not empty, a text that is
    a fragment made by the converter, status approved when the status cell
    is empty and priority medium when the priority cell is empty; and the
    row's IE PUID, when it is not empty, is mapped to the identifier of the
    object. *)
Theorem process_req_row_effect (row : gmap string cell) (st : mapper_state) :
  exists st',
    process_req_row py_int row st = Some st'
    /\ spec_relations (generator st') = spec_relations (generator st)
    /\ added_rels st' = added_rels st
    /\ title (generator st') = title (generator st)
    /\ timestamp (generator st') = timestamp (generator st)
    /\ match classify (lower (text_of (get2 row "type" "req_type"))) with
       | None =>
           generator st' = generator st /\ id_map st' = id_map st
           /\ added_reqs st' = added_reqs st
           /\ length (warnings st') = S (length (warnings st))
       | Some k =>
           exists req e,
             k ∈ valid_kinds
             /\ spec_objects (generator st')
                = spec_objects (generator st) ++ [req]
             /\ warnings st' = warnings st
             /\ added_reqs st' = added_reqs st + 1
             /\ requirement_ok req
             /\ req_name req
                = or_str (text_of (get1 row "name"))
                    (or_str (text_of (get2 row "ie_puid" "iepuid")) "Untitled")
             /\ req_name req <> ""
             /\ req_text_content req = inl e
             /\ (exists src, build_xhtml_from_text src = Some e)
             /\ (text_or_empty (get1 row "status") = "" ->
                 req_status req = "EV-STATUS-APPROVED")
             /\ (text_or_empty (get1 row "priority") = "" ->
                 req_priority req = "EV-PRIO-MEDIUM")
             /\ (let p := text_of (get2 row "ie_puid" "iepuid") in
                 if truthy p
                 then id_map st' = <[p := req_identifier req]> (id_map st)
                      /\ req_ie_puid req = p
                 else id_map st' = id_map st)
       end.
Proof. exact (process_req_row_step row st). Qed.

Ltac skip_row Hwarn :=
  let st' := fresh "st'" in
  let E := fresh "E" in
  let Hrest := fresh "Hrest" in
  edestruct Hwarn as (st' & E & ? & ? & ? & ? & ? & Hrest);
  exists st'; split; [exact E |];
  repeat (split; [assumption |]); left; exact Hrest.

Lemma process_rel_row_step (row : gmap string cell) (st : mapper_state) :
  exists st',
    process_rel_row row st = Some st'
    /\ spec_objects (generator st') = spec_objects (generator st)
    /\ id_map st' = id_map st
    /\ added_reqs st' = added_reqs st
    /\ title (generator st') = title (generator st)
    /\ timestamp (generator st') = timestamp (generator st)
    /\ ((generator st' = generator st
         /\ length (warnings st') = S (length (warnings st))
         /\ added_rels st' = added_rels st)
        \/ (exists rel,
              spec_relations (generator st')
              = spec_relations (generator st) ++ [rel]
              /\ warnings st' = warnings st
              /\ added_rels st' = added_rels st + 1
              /\ relation_ok rel
              /\ lower (text_of (get2 row "relationtype" "relation_type"))
                 ∈ valid_relation_kinds
              /\ if truthy (text_of (get1 row "source_id"))
                    && truthy (text_of (get1 row "target_id"))
                 then rel_source rel = text_of (get1 row "source_id")
                      /\ rel_target rel = text_of (get1 row "target_id")
                 else id_map st
                        !! text_of (get2 row "sourceiepuid" "source_ie_puid")
                      = Some (rel_source rel)
                      /\ id_map st
                           !! text_of (get2 row "targetiepuid" "target_ie_puid")
                         = Some (rel_target rel))).
Proof.
  unfold process_rel_row.
  set (rtype := lower (text_of (get2 row "relationtype" "relation_type"))).
  assert (Hwarn : forall w,
    exists st',
      Some (MapperState (generator st) (id_map st) (warnings st ++ [w])
              (added_reqs st) (added_rels st)) = Some st'
      /\ spec_objects (generator st') = spec_objects (generator st)
      /\ id_map st' = id_map st /\ added_reqs st' = added_reqs st
      /\ title (generator st') = title (generator st)
      /\ timestamp (generator st') = timestamp (generator st)
      /\ generator st' = generator st
      /\ length (warnings st') = S (length (warnings st))
      /\ added_rels st' = added_rels st).
  { intros w. eexists. split; [reflexivity |].
    cbn [generator id_map warnings added_reqs added_rels].
    repeat split. rewrite length_app. cbn [length]. lia. }
  case_bool_decide as Hk; cbn [negb]; [| skip_row Hwarn].
  destruct (rel_type_map_valid _ Hk) as [tr Hm].
  destruct (truthy (text_of (get1 row "source_id"))
            && truthy (text_of (get1 row "target_id"))) eqn:Hd.
  - rewrite (add_relation_ok _ _ _ _ _ tr Hm).
    eexists. split; [reflexivity |].
    cbn [generator id_map warnings added_reqs added_rels spec_objects
         spec_relations].
    repeat split. right. eexists. repeat split.
    + exact (rel_type_map_range _ _ Hm).
    + exact Hk.
  - destruct (negb (truthy (text_of (get2 row "sourceiepuid" "source_ie_puid")))
              || negb (truthy (text_of (get2 row "targetiepuid" "target_ie_puid"))));
      [skip_row Hwarn |].
    destruct (id_map st !! text_of (get2 row "sourceiepuid" "source_ie_puid"))
      as [src |] eqn:Hs; [| skip_row Hwarn].
    destruct (id_map st !! text_of (get2 row "targetiepuid" "target_ie_puid"))
      as [tgt |] eqn:Ht; [| skip_row Hwarn].
    destruct (truthy src && truthy tgt); [| skip_row Hwarn].
    rewrite (add_relation_ok _ _ _ _ _ tr Hm).
    eexists. split; [reflexivity |].
    cbn [generator id_map warnings added_reqs added_rels spec_objects
         spec_relations].
    repeat split. right. eexists. repeat split.
    + exact (rel_type_map_range _ _ Hm).
    + exact Hk.
Qed.

(** X16.  A relation row never makes [main] fail, and it changes neither
    the objects nor the map of business keys.  It either adds one warning
    and nothing else, or adds exactly one relation of a valid kind and no
    warning.  The relation added has the two direct identifiers of the row
    as they are, unchecked, when both are given; otherwise its source and
    target are what the map holds for the two business keys of the row. *)
Theorem process_rel_row_effect (row : gmap string cell) (st : mapper_state) :
  exists st',
    process_rel_row row st = Some st'
    /\ spec_objects (generator st') = spec_objects (generator st)
    /\ id_map st' = id_map st
    /\ added_reqs st' = added_reqs st
    /\ title (generator st') = title (generator st)
    /\ timestamp (generator st') = timestamp (generator st)
    /\ ((generator st' = generator st
         /\ length (warnings st') = S (length (warnings st))
         /\ added_rels st' = added_rels st)
        \/ (exists rel,
              spec_relations (generator st')
              = spec_relations (generator st) ++ [rel]
              /\ warnings st' = warnings st
              /\ added_rels st' = added_rels st + 1
              /\ relation_ok rel
              /\ lower (text_of (get2 row "relationtype" "relation_type"))
                 ∈ valid_relation_kinds
              /\ if truthy (text_of (get1 row "source_id"))
                    && truthy (text_of (get1 row "target_id"))
                 then rel_source rel = text_of (get1 row "source_id")
                      /\ rel_target rel = text_of (get1 row "target_id")
                 else id_map st
                        !! text_of (get2 row "sourceiepuid" "source_ie_puid")
                      = Some (rel_source rel)
                      /\ id_map st
                           !! text_of (get2 row "targetiepuid" "target_ie_puid")
                         = Some (rel_target rel))).
Proof. exact (process_rel_row_step row st). Qed.

(** *** Empty cells read as [None] *)

(** X19.  A relation row of a valid kind whose [source_id] and [target_id]
    cells are both there and hold [None] (empty cells as openpyxl reads
    them) adds a relation from "None" to "None": [str(None)] is taken for a
    direct identifier, and the business keys of the row are not looked
    at. *)
Theorem none_direct_ids_make_a_relation (row : gmap string cell)
    (st : mapper_state) :
  lower (text_of (get2 row "relationtype" "relation_type"))
    ∈ valid_relation_kinds ->
  row !! "source_id" = Some None -> row !! "target_id" = Some None ->
  exists st' rel,
    process_rel_row row st = Some st'
    /\ spec_relations (generator st')
       = spec_relations (generator st) ++ [rel]
    /\ rel_source rel = "None" /\ rel_target rel = "None"
    /\ warnings st' = warnings st.
Proof.
  intros Hk Hs Ht.
  assert (Hs' : text_of (get1 row "source_id") = "None")
    by (unfold get1; rewrite Hs; reflexivity).
  assert (Ht' : text_of (get1 row "target_id") = "None")
    by (unfold get1; rewrite Ht; reflexivity).
  destruct (rel_type_map_valid _ Hk) as [tr Hm].
  unfold process_rel_row.
  rewrite bool_decide_eq_true_2 by exact Hk. cbn [negb].
  rewrite Hs', Ht'. cbn [truthy andb].
  rewrite (add_relation_ok _ _ _ _ _ tr Hm).
  eexists _, _. split; [reflexivity |].
  cbn [generator warnings spec_relations]. repeat split.
Qed.

(** X20.  A requirement row of a classified type whose [name] cell is there
    and holds [None] stores an object named "None": the fall back to the IE
    PUID or to "Untitled" is for a name that is the empty string only. *)
Theorem none_name_is_stored_as_text (row : gmap string cell)
    (st : mapper_state) (k : string) :
  classify (lower (text_of (get2 row "type" "req_type"))) = Some k ->
  row !! "name" = Some None ->
  exists st' req,
    process_req_row py_int row st = Some st'
    /\ spec_objects (generator st')
       = spec_objects (generator st) ++ [req]
    /\ req_name req = "None".
Proof.
  intros Hc Hn.
  destruct (process_req_row_step row st) as (st' & Hrun & _ & _ & _ & _ & Hcase).
  rewrite Hc in Hcase.
  destruct Hcase as (req & e & _ & Hobjs & _ & _ & _ & Hname & _).
  exists st', req. split; [exact Hrun |]. split; [exact Hobjs |].
  rewrite Hname. unfold get1. rewrite Hn. reflexivity.
Qed.

(** *** The order of the rows *)

Lemma strongly_sorted_suffix {A} (R : A -> A -> Prop) (l1 l2 : list A) :
  Sorted.StronglySorted R (l1 ++ l2) -> Sorted.StronglySorted R l2.
Proof.
  induction l1 as [| x l1 IH]; [exact id |]. cbn [app]. intros H.
  apply Sorted.StronglySorted_inv in H as [H _]. exact (IH H).
Qed.

Lemma insert_sorted_perm (x : gmap string cell)
    (l : list (gmap string cell)) :
  insert_sorted py_int x l ≡ₚ x :: l.
Proof.
  induction l as [| y l IH]; [reflexivity |]. cbn [insert_sorted].
  destruct (order_key py_int x <=? order_key py_int y)%Z; [reflexivity |].
  rewrite IH. apply Permutation_swap.
Qed.

Lemma sorted_rows_perm (rows : list (gmap string cell)) :
  sorted_rows py_int rows ≡ₚ rows.
Proof.
  induction rows as [| x rows IH]; [reflexivity |]. cbn [sorted_rows].
  rewrite insert_sorted_perm, IH. reflexivity.
Qed.

Lemma insert_sorted_sorted (x : gmap string cell)
    (l : list (gmap string cell)) :
  Sorted.StronglySorted (fun a b => (order_key py_int a <= order_key py_int b)%Z) l ->
  Sorted.StronglySorted (fun a b => (order_key py_int a <= order_key py_int b)%Z)
    (insert_sorted py_int x l).
Proof.
  induction 1 as [| y l Hs IH Hy]; cbn [insert_sorted].
  - repeat constructor.
  - destruct (order_key py_int x <=? order_key py_int y)%Z eqn:Hc.
    + apply Z.leb_le in Hc. constructor; [constructor; assumption |].
      constructor; [exact Hc |].
      eapply Forall_impl; [exact Hy |]. intros z Hz. simpl in Hz. lia.
    + apply Z.leb_gt in Hc. constructor; [exact IH |].
      rewrite insert_sorted_perm. constructor; [lia | exact Hy].
Qed.

Lemma insert_sorted_filter (k : Z) (x : gmap string cell)
    (l : list (gmap string cell)) :
  filter (fun r => order_key py_int r = k) (insert_sorted py_int x l)
  = filter (fun r => order_key py_int r = k) (x :: l).
Proof.
  induction l as [| y l IH]; [reflexivity |]. cbn [insert_sorted].
  destruct (order_key py_int x <=? order_key py_int y)%Z eqn:Hc; [reflexivity |].
  apply Z.leb_gt in Hc. rewrite filter_cons, IH, !filter_cons.
  repeat case_decide; try reflexivity; lia.
Qed.


(** *** The two loops together *)

Lemma for_rows_requirements (rows : list (gmap string cell)) :
  forall st,
    id_map_resolves st ->
    Forall requirement_ok (spec_objects (generator st)) ->
    exists st',
      for_rows (process_req_row py_int) rows st = Some st'
      /\ id_map_resolves st'
      /\ Forall requirement_ok (spec_objects (generator st'))
      /\ spec_relations (generator st') = spec_relations (generator st)
      /\ added_rels st' = added_rels st
      /\ title (generator st') = title (generator st)
      /\ timestamp (generator st') = timestamp (generator st)
      /\ added_reqs st' + length (warnings st')
         = added_reqs st + length (warnings st) + length rows
      /\ added_reqs st' + length (spec_objects (generator st))
         = added_reqs st + length (spec_objects (generator st')).
Proof.
  induction rows as [| row rows IH]; intros st Hres Hok.
  - exists st. cbn [for_rows length]. repeat split; try assumption; lia.
  - destruct (process_req_row_step row st)
      as (st1 & Hstep & Hrel & Hrels & Htitle & Hts & Hcase).
    assert (H1 : id_map_resolves st1
                 /\ Forall requirement_ok (spec_objects (generator st1))
                 /\ added_reqs st1 + length (warnings st1)
                    = added_reqs st + length (warnings st) + 1
                 /\ added_reqs st1 + length (spec_objects (generator st))
                    = added_reqs st + length (spec_objects (generator st1))).
    { destruct (classify (lower (text_of (get2 row "type" "req_type"))))
        as [k |].
      - destruct Hcase as (req & e & _ & Hobjs & Hw & Ha & Hreq & _ & _ & _ & _ & _ & _ & Hid).
        split; [| split; [| split]].
        + intros key v Hkv. rewrite Hobjs, map_app. cbn [map].
          cbv zeta in Hid.
          destruct (truthy (text_of (get2 row "ie_puid" "iepuid"))).
          * destruct Hid as [Hid _]. rewrite Hid in Hkv.
            rewrite lookup_insert in Hkv. case_decide.
            -- injection Hkv as <-. apply elem_of_app. right. prove_elem.
            -- apply elem_of_app. left. exact (Hres key v Hkv).
          * rewrite Hid in Hkv. apply elem_of_app. left. exact (Hres key v Hkv).
        + rewrite Hobjs. apply Forall_app. split; [exact Hok |].
          constructor; [exact Hreq | constructor].
        + rewrite Hw. lia.
        + rewrite Hobjs, length_app. cbn [length]. lia.
      - destruct Hcase as (Hg & Hid & Ha & Hw). rewrite Hg.
        split; [| split; [exact Hok | split; lia]].
        intros key v Hkv. rewrite Hid in Hkv. rewrite Hg. exact (Hres key v Hkv). }
    destruct H1 as (Hres1 & Hok1 & Hc1 & Hc2).
    destruct (IH st1 Hres1 Hok1)
      as (st' & Hloop & Hres' & Hok' & Hrel' & Hrels' & Htitle' & Hts' & Hn & Hm).
    exists st'. cbn [for_rows length]. rewrite Hstep.
    split; [exact Hloop |]. split; [exact Hres' |]. split; [exact Hok' |].
    split; [congruence |]. split; [congruence |]. split; [congruence |].
    split; [congruence |]. split; lia.
Qed.

Lemma for_rows_relations (rows : list (gmap string cell)) :
  forall st,
    id_map_resolves st ->
    Forall relation_ok (spec_relations (generator st)) ->
    exists st',
      for_rows process_rel_row rows st = Some st'
      /\ spec_objects (generator st') = spec_objects (generator st)
      /\ Forall relation_ok (spec_relations (generator st'))
      /\ added_reqs st' = added_reqs st
      /\ title (generator st') = title (generator st)
      /\ timestamp (generator st') = timestamp (generator st)
      /\ added_rels st' + length (warnings st')
         = added_rels st + length (warnings st) + length rows
      /\ added_rels st' + length (spec_relations (generator st))
         = added_rels st + length (spec_relations (generator st'))
      /\ (Forall (fun row => truthy (text_of (get1 row "source_id"))
                             && truthy (text_of (get1 row "target_id")) = false)
            rows ->
          forall P : Relation -> Prop,
            (forall rel,
               rel_source rel ∈ map req_identifier (spec_objects (generator st)) ->
               rel_target rel ∈ map req_identifier (spec_objects (generator st)) ->
               P rel) ->
            Forall P (spec_relations (generator st)) ->
            Forall P (spec_relations (generator st'))).
Proof.
  induction rows as [| row rows IH]; intros st Hres Hok.
  - exists st. cbn [for_rows length]. repeat split; try assumption; try lia.
    intros _ P _ HP. exact HP.
  - destruct (process_rel_row_step row st)
      as (st1 & Hstep & Hobjs & Hid & Ha & Htitle & Hts & Hcase).
    assert (Hres1 : id_map_resolves st1).
    { intros key v Hkv. rewrite Hid in Hkv. rewrite Hobjs. exact (Hres key v Hkv). }
    assert (Hok1 : Forall relation_ok (spec_relations (generator st1))).
    { destruct Hcase as [(Hg & _) | (rel & Hrels & _ & _ & Hrel & _)].
      - rewrite Hg. exact Hok.
      - rewrite Hrels. apply Forall_app. split; [exact Hok |].
        constructor; [exact Hrel | constructor]. }
    destruct (IH st1 Hres1 Hok1)
      as (st' & Hloop & Hobjs' & Hok' & Ha' & Htitle' & Hts' & Hn & Hm & Hresolved).
    exists st'. cbn [for_rows length]. rewrite Hstep.
    split; [exact Hloop |]. split; [congruence |]. split; [exact Hok' |].
    split; [congruence |]. split; [congruence |]. split; [congruence |].
    split; [| split].
    + destruct Hcase as [(Hg & Hw & Hr) | (rel & Hrels & Hw & Hr & _)].
      * lia.
      * rewrite Hw in Hn. lia.
    + destruct Hcase as [(Hg & Hw & Hr) | (rel & Hrels & Hw & Hr & _)].
      * rewrite Hg in Hm. lia.
      * rewrite Hrels, length_app in Hm. cbn [length] in Hm. lia.
    + intros Hrows P HP Hall. apply Forall_cons in Hrows as [Hrow Hrows].
      apply (Hresolved Hrows P).
      * intros rel. rewrite Hobjs. apply HP.
      * destruct Hcase as [(Hg & _) | (rel & Hrels & _ & _ & _ & _ & Hends)].
        -- rewrite Hg. exact Hall.
        -- rewrite Hrels. apply Forall_app. split; [exact Hall |].
           constructor; [| constructor]. rewrite Hrow in Hends.
           destruct Hends as [Hs Ht]. apply HP.
           ++ exact (Hres _ _ Hs).
           ++ exact (Hres _ _ Ht).
Qed.

(** X18.  The two loops of [main] together, for any rows.  No exception
    leaves them.  The counters are right: [added_reqs] and [added_rels] are
    the numbers of objects and relations of the generator, and every row is
    counted once, as an object, a relation or a warning.  The document built
    encodes to one that conforms to its own schema.  And when no relation
    row gives both direct identifiers, every relation of the document has a
    source and a target that are identifiers of objects of the document. *)
Theorem map_rows_result (now : string)
    (req_rows rel_rows : list (gmap string cell)) :
  exists st,
    map_rows py_int now req_rows rel_rows = Some st
    /\ title (generator st) = "System Requirements Specification"
    /\ timestamp (generator st) = now
    /\ added_reqs st = length (spec_objects (generator st))
    /\ added_rels st = length (spec_relations (generator st))
    /\ added_reqs st + added_rels st + length (warnings st)
       = length req_rows + length rel_rows
    /\ forallb (object_conforms (generate_root (generator st)))
         (object_blocks (generate_root (generator st))) = true
    /\ forallb (relation_conforms (generate_root (generator st)))
         (relation_blocks (generate_root (generator st))) = true
    /\ (Forall (fun row => truthy (text_of (get1 row "source_id"))
                           && truthy (text_of (get1 row "target_id")) = false)
          rel_rows ->
        Forall (fun rel =>
                  rel_source rel
                    ∈ map req_identifier (spec_objects (generator st))
                  /\ rel_target rel
                       ∈ map req_identifier (spec_objects (generator st)))
          (spec_relations (generator st))).
Proof.
  unfold map_rows.
  set (st0 := MapperState _ _ _ _ _).
  destruct (for_rows_requirements (sorted_rows py_int req_rows) st0)
    as (st1 & -> & Hres1 & Hok1 & Hrel1 & Hrels1 & Ht1 & Hts1 & Hn1 & Hm1).
  { intros k v Hkv. subst st0. cbn [id_map] in Hkv.
    rewrite lookup_empty in Hkv. discriminate Hkv. }
  { constructor. }
  destruct (for_rows_relations rel_rows st1 Hres1)
    as (st & -> & Hobjs & Hok & Ha & Ht & Hts & Hn & Hm & Hresolved).
  { rewrite Hrel1. constructor. }
  rewrite (Permutation_length (sorted_rows_perm req_rows)) in Hn1.
  subst st0. cbn [generator warnings added_reqs added_rels init title timestamp
                  spec_objects spec_relations length] in *.
  rewrite Hrel1 in Hm. cbn [length] in Hm.
  exists st. split; [reflexivity |]. split; [congruence |].
  split; [congruence |]. split; [rewrite Hobjs; lia |]. split; [lia |].
  split; [lia |]. split; [| split].
  - rewrite object_blocks_generate. unfold _create_spec_objects.
    apply forallb_forall. intros blk Hin.
    apply in_map_iff in Hin as (req & <- & Hin). apply object_conforms_ok.
    rewrite <- Hobjs in Hok1. rewrite Forall_forall in Hok1. apply Hok1.
    apply list_elem_of_In. exact Hin.
  - rewrite relation_blocks_generate. unfold _create_spec_relations.
    apply forallb_forall. intros blk Hin.
    apply in_map_iff in Hin as (rel & <- & Hin). apply relation_conforms_ok.
    rewrite Forall_forall in Hok. apply Hok. apply list_elem_of_In. exact Hin.
  - intros Hrows. rewrite Hobjs.
    apply (Hresolved Hrows
             (fun rel =>
                rel_source rel ∈ map req_identifier (spec_objects (generator st1))
                /\ rel_target rel
                     ∈ map req_identifier (spec_objects (generator st1)))).
    + intros rel Hs Htg. split; assumption.
    + rewrite Hrel1. constructor.
Qed.

End RowMapperFacts.

Example process_req_row_example :
  let row : gmap string cell :=
    list_to_map [("type", Some "Functional Requirement");
                 ("ie_puid", Some "REQ-1"); ("foreign_id", Some "12");
                 ("text", Some "- a"); ("priority", None)] in
  (fun st => (map req_identifier (spec_objects (generator st)),
              map req_name (spec_objects (generator st)),
              map req_priority (spec_objects (generator st)),
              map req_foreign_id (spec_objects (generator st)),
              id_map st !! "REQ-1"))
  <$> process_req_row digits_int row
        (MapperState (init "T" "2024-05-01T10:00:00Z") ∅ [] 0 0)
  = Some (["SO-F-001"], ["REQ-1"], ["EV-PRIO-MEDIUM"], [12%Z], Some "SO-F-001").
Proof. vm_compute. reflexivity. Qed.

Example map_rows_example :
  let req_rows : list (gmap string cell) :=
    [list_to_map [("type", Some "interface"); ("ie_puid", Some "REQ-2");
                  ("name", Some "Bus"); ("order", Some "2")];
     list_to_map [("type", Some "unknown"); ("ie_puid", Some "REQ-3")];
     list_to_map [("type", Some "Functional"); ("ie_puid", Some "REQ-1");
                  ("name", Some "Login"); ("order", Some "1");
                  ("priority", Some "")]] in
  let rel_rows : list (gmap string cell) :=
    [list_to_map [("relationtype", Some "Satisfy");
                  ("sourceiepuid", Some "REQ-2");
                  ("targetiepuid", Some "REQ-1")];
     list_to_map [("relationtype", Some "derive");
                  ("sourceiepuid", Some "REQ-3");
                  ("targetiepuid", Some "REQ-1")]] in
  (fun st =>
     (map (fun r => (req_identifier r, req_ie_puid r, req_priority r))
        (spec_objects (generator st)),
      map (fun r => (rel_identifier r, rel_type_ref r, rel_source r,
                     rel_target r)) (spec_relations (generator st)),
      length (warnings st)))
  <$> map_rows digits_int "2024-05-01T10:00:00Z" req_rows rel_rows
  = Some ([("SO-F-001", "REQ-1", "EV-PRIO-MEDIUM");
           ("SO-I-002", "REQ-2", "EV-PRIO-MEDIUM")],
          [("SR-001", "T-REL-SATISFY", "SO-I-002", "SO-F-001")],
          2).
Proof. vm_compute. reflexivity. Qed.

Lemma none_direct_ids_make_a_relation_witness :
  exists st' rel,
    process_rel_row
      (list_to_map [("relationtype", Some "refine"); ("source_id", None);
                    ("target_id", None); ("sourceiepuid", Some "REQ-2");
                    ("targetiepuid", Some "REQ-1")])
      (MapperState sample_generator ∅ [] 2 1)
    = Some st'
    /\ spec_relations (generator st')
       = spec_relations sample_generator ++ [rel]
    /\ rel_source rel = "None" /\ rel_target rel = "None".
Proof.
  destruct (none_direct_ids_make_a_relation
              (list_to_map [("relationtype", Some "refine");
                            ("source_id", None); ("target_id", None);
                            ("sourceiepuid", Some "REQ-2");
                            ("targetiepuid", Some "REQ-1")])
              (MapperState sample_generator ∅ [] 2 1))
    as (st' & rel & Hrun & Hrels & Hs & Ht & _).
  - vm_compute. prove_elem.
  - vm_compute. reflexivity.
  - vm_compute. reflexivity.
  - exists st', rel. repeat split; assumption.
Defined.

Lemma none_name_is_stored_as_text_witness :
  exists st' req,
    process_req_row digits_int
      (list_to_map [("type", Some "interface"); ("name", None);
                    ("ie_puid", Some "REQ-9")])
      (MapperState sample_generator ∅ [] 2 1)
    = Some st'
    /\ spec_objects (generator st')
       = spec_objects sample_generator ++ [req]
    /\ req_name req = "None".
Proof.
  apply (none_name_is_stored_as_text digits_int
           (list_to_map [("type", Some "interface"); ("name", None);
                         ("ie_puid", Some "REQ-9")])
           (MapperState sample_generator ∅ [] 2 1) "interface").
  - vm_compute. reflexivity.
  - vm_compute. reflexivity.
Defined.
